(** * NDI Bridge receiver: wire header, fragment reassembly, receive loop

    A shallow embedding of [receiver.py] (the full receiver of the
    join-python directory) together with the properties of its packet
    parser, its [FrameReassembler], its [process_packet] and its
    [log_stats].

    Conventions.
    - A Python [bytes] object is a [list Byte.byte]; the integer a byte
      denotes is [byte_val].
    - Python integers are [Z].  Fields read off the wire are bounded by
      their width, but [add_fragment] itself accepts any header, so the
      reassembler is modelled over unbounded [Z].
    - The [fragments] dictionary is a [gmap Z bytes]; [len] is [size].
    - A Python call either returns or raises: [res A]. *)

From Stdlib Require Import ZArith QArith Strings.Byte.
From stdpp Require Import gmap strings list list_numbers fin_maps sorting.

Local Open Scope Z_scope.

(** ** Exceptions *)

Inductive exn : Type :=
  | KeyError (key : Z)
  | IndexError
  | StructError
  | ZeroDivisionError
  | ExternalError.

Inductive res (A : Type) : Type :=
  | Ok (a : A)
  | Raise (e : exn).
Arguments Ok {A} a.
Arguments Raise {A} e.

Definition res_bind {A B} (m : res A) (k : A → res B) : res B :=
  match m with
  | Ok a => k a
  | Raise e => Raise e
  end.

Notation "x <~ m ; k" := (res_bind m (fun x => k))
  (at level 100, m at next level, right associativity, only parsing).

(** ** Bytes *)

Abbreviation bytes := (list Byte.byte).

Definition byte_val (b : Byte.byte) : Z := Z.of_N (Byte.to_N b).

(** [data[a:b]] for literal bounds [0 <= a <= b]: the slice is clipped to
    the end of [data], it never raises. *)
Definition slice (data : bytes) (a b : nat) : bytes :=
  take (b - a) (drop a data).

(** [data[i]]: the integer value of the byte, [IndexError] out of range. *)
Definition index (data : bytes) (i : nat) : res Z :=
  match data !! i with
  | Some b => Ok (byte_val b)
  | None => Raise IndexError
  end.

(** Big-endian value of a byte string. *)
Definition be_value (bs : bytes) : Z :=
  foldl (fun acc b => acc * 256 + byte_val b) 0 bs.

(** [struct.unpack('>I', bs)[0]], ['>H'] and ['>Q'] for widths 4, 2, 8:
    [struct.error] unless the buffer has exactly the width of the format. *)
Definition unpack_be (width : nat) (bs : bytes) : res Z :=
  if decide (length bs = width) then Ok (be_value bs) else Raise StructError.

(** ** Protocol constants *)

Definition MAGIC : Z := 0x4E444942.
Definition HEADER_SIZE : nat := 38.

(** ** The parsed header (the dictionary built by [parse_header]) *)

Record Header : Type := mkHeader {
  magic : Z;
  version : Z;
  media_type : Z;
  source_id : Z;
  flags : Z;
  sequence_number : Z;
  timestamp : Z;
  total_size : Z;
  fragment_index : Z;
  fragment_count : Z;
  payload_size : Z;
  sample_rate : Z;
  channels : Z;
  is_keyframe : bool
}.

Definition parse_header (data : bytes) : res (option Header) :=
  if decide (length data < HEADER_SIZE)%nat then Ok None else
  magic_ <~ unpack_be 4 (slice data 0 4);
  if decide (magic_ ≠ MAGIC) then Ok None else
  version_ <~ index data 4;
  media_type_ <~ index data 5;
  source_id_ <~ index data 6;
  flags_ <~ index data 7;
  sequence_number_ <~ unpack_be 4 (slice data 8 12);
  timestamp_ <~ unpack_be 8 (slice data 12 20);
  total_size_ <~ unpack_be 4 (slice data 20 24);
  fragment_index_ <~ unpack_be 2 (slice data 24 26);
  fragment_count_ <~ unpack_be 2 (slice data 26 28);
  payload_size_ <~ unpack_be 2 (slice data 28 30);
  sample_rate_ <~ unpack_be 4 (slice data 30 34);
  channels_ <~ index data 34;
  flags_again <~ index data 7;
  Ok (Some {|
    magic := magic_;
    version := version_;
    media_type := media_type_;
    source_id := source_id_;
    flags := flags_;
    sequence_number := sequence_number_;
    timestamp := timestamp_;
    total_size := total_size_;
    fragment_index := fragment_index_;
    fragment_count := fragment_count_;
    payload_size := payload_size_;
    sample_rate := sample_rate_;
    channels := channels_;
    is_keyframe := bool_decide (Z.land flags_again 0x01 = 1)
  |}).

(** ** The wire table of the protocol

    This part follows the description of the wire format, not the code:
    every field is the big-endian value of [width] bytes at a fixed offset
    [off].  A byte beyond the end of the datagram reads as 0 here (the
    parser never gets that far: it rejects short datagrams first).
    [parse_header] above is compared with [wire_header] below. *)

Definition byte_at (data : bytes) (i : nat) : Z :=
  default 0 (byte_val <$> data !! i).

Definition wire_field (data : bytes) (off width : nat) : Z :=
  foldl (fun acc i => acc * 256 + byte_at data (off + i)) 0 (seq 0 width).

Definition wire_header (data : bytes) : Header := {|
  magic := wire_field data 0 4;
  version := wire_field data 4 1;
  media_type := wire_field data 5 1;
  source_id := wire_field data 6 1;
  flags := wire_field data 7 1;
  sequence_number := wire_field data 8 4;
  timestamp := wire_field data 12 8;
  total_size := wire_field data 20 4;
  fragment_index := wire_field data 24 2;
  fragment_count := wire_field data 26 2;
  payload_size := wire_field data 28 2;
  sample_rate := wire_field data 30 4;
  channels := wire_field data 34 1;
  is_keyframe := Z.testbit (wire_field data 7 1) 0
|}.

(** ** FrameReassembler *)

Record FrameReassembler : Type := mkReassembler {
  name : string;
  fragments : gmap Z bytes;
  current_sequence : option Z;
  expected_count : Z
}.

(** [FrameReassembler.__init__] *)
Definition new_reassembler (name_ : string) : FrameReassembler := {|
  name := name_;
  fragments := ∅;
  current_sequence := None;
  expected_count := 0
|}.

(** What the program prints. *)
Inductive log_line : Type :=
  | IncompleteFrameDropped (who : string) (seq : Z)
  | FfmpegWriteError
  | StatsLine (mbps : Q) (video audio packets : Z).

(** [b''.join(self.fragments[i] for i in idxs)]: the generator looks the
    indices up one after the other and the first missing one raises. *)
Fixpoint join_fragments (frs : gmap Z bytes) (idxs : list Z) : res bytes :=
  match idxs with
  | [] => Ok []
  | i :: rest =>
      match frs !! i with
      | Some p => data <~ join_fragments frs rest; Ok (p ++ data)
      | None => Raise (KeyError i)
      end
  end.

(** The result of one method call on a reassembler: the object after the
    call (mutations made before an exception stay), the lines printed and
    the value returned or the exception raised. *)
Record call_result : Type := mkCall {
  after : FrameReassembler;
  printed : list log_line;
  returned : res (option bytes)
}.

(** Lines 49-54: a header of another sequence resets the object. *)
Definition begin_sequence (self : FrameReassembler) (seq frag_count : Z)
  : FrameReassembler * list log_line :=
  if decide (current_sequence self ≠ Some seq) then
    ({| name := name self;
        fragments := ∅;
        current_sequence := Some seq;
        expected_count := frag_count |},
     match current_sequence self with
     | Some old =>
         if decide (0 < size (fragments self))%nat
         then [IncompleteFrameDropped (name self) old] else []
     | None => []
     end)
  else (self, []).

(** Lines 56-67: store the payload, then test for completion. *)
Definition store_fragment (self : FrameReassembler) (frag_idx frag_count : Z)
    (payload : bytes) : FrameReassembler * res (option bytes) :=
  let stored := {| name := name self;
                   fragments := <[frag_idx := payload]> (fragments self);
                   current_sequence := current_sequence self;
                   expected_count := expected_count self |} in
  if decide (Z.of_nat (size (fragments stored)) = frag_count) then
    match join_fragments (fragments stored) (seqZ 0 frag_count) with
    | Ok data =>
        ({| name := name stored;
            fragments := ∅;
            current_sequence := None;
            expected_count := expected_count stored |},
         Ok (Some data))
    | Raise e => (stored, Raise e)
    end
  else (stored, Ok None).

Definition add_fragment (self : FrameReassembler) (header : Header)
    (payload : bytes) : call_result :=
  let seq := sequence_number header in
  let frag_idx := fragment_index header in
  let frag_count := fragment_count header in
  let '(self1, out) := begin_sequence self seq frag_count in
  let '(self2, r) := store_fragment self1 frag_idx frag_count payload in
  {| after := self2; printed := out; returned := r |}.

(** A trace of calls on one reassembler.  Each call is recorded with the
    sequence number of its header; the object lives on after a call that
    raised. *)
Abbreviation fragment := (Header * bytes)%type.

Fixpoint add_fragments (self : FrameReassembler) (tr : list fragment)
  : FrameReassembler * list (res (option bytes)) :=
  match tr with
  | [] => (self, [])
  | (header, payload) :: rest =>
      let c := add_fragment self header payload in
      let '(final, rs) := add_fragments (after c) rest in
      (final, returned c :: rs)
  end.

(** The frames a trace emits, each with the sequence number of the call
    that returned it. *)
Fixpoint emitted (self : FrameReassembler) (tr : list fragment)
  : list (Z * bytes) :=
  match tr with
  | [] => []
  | (header, payload) :: rest =>
      let c := add_fragment self header payload in
      match returned c with
      | Ok (Some data) => (sequence_number header, data) :: emitted (after c) rest
      | _ => emitted (after c) rest
      end
  end.

(** ** NDIBridgeReceiver *)

(** What leaves the process: printed lines, access units written to the
    decoder's standard input, audio frames handed to the NDI sender. *)
Inductive event : Type :=
  | Print (line : log_line)
  | FfmpegWrite (frame : bytes)
  | NdiSendAudio (data : bytes) (rate chans samples : Z).

(** The collaborators outside the repository: whether writing a frame to
    the decoder's pipe raises, and whether the numpy and NDIlib calls of
    [send_ndi_audio] raise. *)
Record World : Type := mkWorld {
  stdin_write_raises : bytes → bool;
  ndi_audio_raises : bytes → Z → Z → bool
}.

Record NDIBridgeReceiver : Type := mkReceiver {
  running : bool;
  video_reassembler : FrameReassembler;
  audio_reassembler : FrameReassembler;
  packets_received : Z;
  video_frames : Z;
  audio_frames : Z;
  bytes_received : Z;
  last_stats_time : Q;
  ndi_send : bool;        (* a sender object, or None *)
  ffmpeg_process : bool   (* a Popen object, or None *)
}.

(** [NDIBridgeReceiver.__init__] at clock reading [now]. *)
Definition new_receiver (now : Q) : NDIBridgeReceiver := {|
  running := false;
  video_reassembler := new_reassembler "video";
  audio_reassembler := new_reassembler "audio";
  packets_received := 0;
  video_frames := 0;
  audio_frames := 0;
  bytes_received := 0;
  last_stats_time := now;
  ndi_send := false;
  ffmpeg_process := false
|}.

(** The result of a method of the receiver. *)
Record step_result : Type := mkStep {
  receiver : NDIBridgeReceiver;
  events : list event;
  status : res unit
}.

Definition set_video (self : NDIBridgeReceiver) (r : FrameReassembler)
  : NDIBridgeReceiver :=
  {| running := running self;
     video_reassembler := r;
     audio_reassembler := audio_reassembler self;
     packets_received := packets_received self;
     video_frames := video_frames self;
     audio_frames := audio_frames self;
     bytes_received := bytes_received self;
     last_stats_time := last_stats_time self;
     ndi_send := ndi_send self;
     ffmpeg_process := ffmpeg_process self |}.

Definition set_audio (self : NDIBridgeReceiver) (r : FrameReassembler)
  : NDIBridgeReceiver :=
  {| running := running self;
     video_reassembler := video_reassembler self;
     audio_reassembler := r;
     packets_received := packets_received self;
     video_frames := video_frames self;
     audio_frames := audio_frames self;
     bytes_received := bytes_received self;
     last_stats_time := last_stats_time self;
     ndi_send := ndi_send self;
     ffmpeg_process := ffmpeg_process self |}.

(** Lines 224-225. *)
Definition count_packet (self : NDIBridgeReceiver) (data : bytes)
  : NDIBridgeReceiver :=
  {| running := running self;
     video_reassembler := video_reassembler self;
     audio_reassembler := audio_reassembler self;
     packets_received := packets_received self + 1;
     video_frames := video_frames self;
     audio_frames := audio_frames self;
     bytes_received := bytes_received self + Z.of_nat (length data);
     last_stats_time := last_stats_time self;
     ndi_send := ndi_send self;
     ffmpeg_process := ffmpeg_process self |}.

Definition count_audio_frame (self : NDIBridgeReceiver) : NDIBridgeReceiver :=
  {| running := running self;
     video_reassembler := video_reassembler self;
     audio_reassembler := audio_reassembler self;
     packets_received := packets_received self;
     video_frames := video_frames self;
     audio_frames := audio_frames self + 1;
     bytes_received := bytes_received self;
     last_stats_time := last_stats_time self;
     ndi_send := ndi_send self;
     ffmpeg_process := ffmpeg_process self |}.

Definition send_ndi_audio (w : World) (self : NDIBridgeReceiver)
    (audio_data : bytes) (sample_rate_ channels_ : Z) : step_result :=
  if negb (ndi_send self) then mkStep self [] (Ok tt) else
  if decide (4 * channels_ = 0) then mkStep self [] (Raise ZeroDivisionError) else
  let samples := Z.of_nat (length audio_data) `div` (4 * channels_) in
  if ndi_audio_raises w audio_data sample_rate_ channels_
  then mkStep self [] (Raise ExternalError)
  else mkStep (count_audio_frame self)
              [NdiSendAudio audio_data sample_rate_ channels_ samples] (Ok tt).

(** Line 227: [data[HEADER_SIZE:HEADER_SIZE + header['payload_size']]]. *)
Definition payload_of (data : bytes) (header : Header) : bytes :=
  slice data HEADER_SIZE (HEADER_SIZE + Z.to_nat (payload_size header)).

(** Truth value of [frame]: neither [None] nor the empty bytes object. *)
Definition truthy (frame : option bytes) : option bytes :=
  match frame with
  | Some [] => None
  | other => other
  end.

Definition process_packet (w : World) (self : NDIBridgeReceiver)
    (data : bytes) : step_result :=
  match parse_header data with
  | Raise e => mkStep self [] (Raise e)
  | Ok None => mkStep self [] (Ok tt)
  | Ok (Some header) =>
      let self := count_packet self data in
      let payload := payload_of data header in
      if decide (media_type header = 0) then
        let c := add_fragment (video_reassembler self) header payload in
        let self := set_video self (after c) in
        let out := Print <$> printed c in
        match returned c with
        | Raise e => mkStep self out (Raise e)
        | Ok frame =>
            match truthy frame with
            | Some data_ =>
                if ffmpeg_process self then
                  if stdin_write_raises w data_
                  then mkStep self (out ++ [Print FfmpegWriteError]) (Ok tt)
                  else mkStep self (out ++ [FfmpegWrite data_]) (Ok tt)
                else mkStep self out (Ok tt)
            | None => mkStep self out (Ok tt)
            end
        end
      else if decide (media_type header = 1) then
        let c := add_fragment (audio_reassembler self) header payload in
        let self := set_audio self (after c) in
        let out := Print <$> printed c in
        match returned c with
        | Raise e => mkStep self out (Raise e)
        | Ok frame =>
            match truthy frame with
            | Some data_ =>
                let s := send_ndi_audio w self data_
                           (sample_rate header) (channels header) in
                mkStep (receiver s) (out ++ events s) (status s)
            | None => mkStep self out (Ok tt)
            end
        end
      else mkStep self [] (Ok tt)
  end.

(** [log_stats], with the reading of [time.time()] as argument.  The
    throughput is computed over the rationals; the program computes it in
    floating point and only prints it. *)
Definition log_stats (now : Q) (self : NDIBridgeReceiver)
  : NDIBridgeReceiver * list event :=
  let elapsed := Qminus now (last_stats_time self) in
  let out :=
    if Qlt_le_dec 0 elapsed then
      if decide (0 < packets_received self) then
        [Print (StatsLine
                  (Qdiv (Qdiv (inject_Z (bytes_received self * 8)) elapsed)
                        (inject_Z 1000000))
                  (video_frames self) (audio_frames self)
                  (packets_received self))]
      else []
    else [] in
  ({| running := running self;
      video_reassembler := video_reassembler self;
      audio_reassembler := audio_reassembler self;
      packets_received := 0;
      video_frames := 0;
      audio_frames := 0;
      bytes_received := 0;
      last_stats_time := now;
      ndi_send := ndi_send self;
      ffmpeg_process := ffmpeg_process self |},
   out).

(** ** The receive loop of [run] (lines 287-311)

    One iteration waits for a datagram, a timeout of the socket or the
    interrupt of the user, and reads the clock up to three times.  When
    the loop is left, by the interrupt or by an exception that nothing
    handles, the [finally] block clears [self.running]; closing the
    socket, the decoder and the sender, and the two lines printed on the
    way out, are not recorded as events. *)
Inductive arrival : Type :=
  | Datagram (data : bytes)
  | Timeout
  | KeyboardInterrupt.

Record iteration : Type := mkIteration {
  arrived : arrival;
  clock_check : Q;
  clock_log : Q;
  clock_after : Q
}.

Inductive loop_exit : Type :=
  | Waiting                (* input exhausted, the loop is still running *)
  | ShutDown               (* KeyboardInterrupt: the handler of [run] *)
  | Uncaught (e : exn).    (* the exception leaves [run] *)

(** Lines 295-298. *)
Definition stats_tick (self : NDIBridgeReceiver) (last_stats : Q)
    (it : iteration) : NDIBridgeReceiver * Q * list event :=
  if Qle_bool 1 (Qminus (clock_check it) last_stats) then
    let '(self, out) := log_stats (clock_log it) self in
    (self, clock_after it, out)
  else (self, last_stats, []).

(** Line 304: [self.running = False]. *)
Definition stopped (self : NDIBridgeReceiver) : NDIBridgeReceiver :=
  {| running := false;
     video_reassembler := video_reassembler self;
     audio_reassembler := audio_reassembler self;
     packets_received := packets_received self;
     video_frames := video_frames self;
     audio_frames := audio_frames self;
     bytes_received := bytes_received self;
     last_stats_time := last_stats_time self;
     ndi_send := ndi_send self;
     ffmpeg_process := ffmpeg_process self |}.

Fixpoint receive_loop (w : World) (self : NDIBridgeReceiver) (last_stats : Q)
    (input : list iteration) : NDIBridgeReceiver * list event * loop_exit :=
  match input with
  | [] => (self, [], Waiting)
  | it :: rest =>
      match arrived it with
      | KeyboardInterrupt => (stopped self, [], ShutDown)
      | Timeout =>
          let '(self, last_stats, out) := stats_tick self last_stats it in
          let '(final, out', ex) := receive_loop w self last_stats rest in
          (final, out ++ out', ex)
      | Datagram data =>
          let s := process_packet w self data in
          match status s with
          | Raise e => (stopped (receiver s), events s, Uncaught e)
          | Ok _ =>
              let '(self, last_stats, out) :=
                stats_tick (receiver s) last_stats it in
              let '(final, out', ex) := receive_loop w self last_stats rest in
              (final, events s ++ out ++ out', ex)
          end
      end
  end.

(** ** Vocabulary for traces *)

Definition frag_key (f : fragment) : Z := fragment_index f.1.
Definition frag_seq (f : fragment) : Z := sequence_number f.1.
Definition frag_pair (f : fragment) : Z * Z := (frag_seq f, frag_key f).

(** The dictionary after storing the fragments of [l] one after the other. *)
Definition collect (m : gmap Z bytes) (l : list fragment) : gmap Z bytes :=
  foldl (fun acc f => <[frag_key f := f.2]> acc) m l.

(** [f] is a fragment of sequence [S], which announces [N] fragments. *)
Definition of_sequence (S N : Z) (f : fragment) : Prop :=
  sequence_number f.1 = S ∧ fragment_count f.1 = N.

(** A sender that respects the protocol: every index lies below the count
    its header announces, and the fragments of one sequence number agree
    on the count. *)
Definition consistent (tr : list fragment) : Prop :=
  Forall (fun f => 0 ≤ frag_key f < fragment_count f.1) tr ∧
  ∀ f g, f ∈ tr → g ∈ tr → frag_seq f = frag_seq g →
         fragment_count f.1 = fragment_count g.1.

(** What [add_fragment] finds stored once lines 49-54 have run: the
    dictionary of the object if the header continues its sequence, an
    empty one otherwise; and likewise the recorded count. *)
Definition stored_before (self : FrameReassembler) (seq : Z) : gmap Z bytes :=
  if decide (current_sequence self = Some seq) then fragments self else ∅.

Definition expected_after (self : FrameReassembler) (seq n : Z) : Z :=
  if decide (current_sequence self = Some seq) then expected_count self else n.

(** The same object with another value in [expected_count]. *)
Definition with_expected (self : FrameReassembler) (e : Z) : FrameReassembler :=
  {| name := name self;
     fragments := fragments self;
     current_sequence := current_sequence self;
     expected_count := e |}.

(** ** Concrete inputs *)

(** A video header with the given sequence number, index and count. *)
Definition video_header (seq idx count : Z) : Header := {|
  magic := MAGIC; version := 1; media_type := 0; source_id := 0; flags := 0;
  sequence_number := seq; timestamp := 0; total_size := 0;
  fragment_index := idx; fragment_count := count; payload_size := 3;
  sample_rate := 0; channels := 0; is_keyframe := false
|}.

Definition ABC : bytes := [x41; x42; x43].
Definition DEF : bytes := [x44; x45; x46].

(** The datagram of a video fragment: sequence number [seq <= 255], index
    [idx <= 255], count [count <= 255], declared payload size [size <= 255],
    followed by [payload]. *)
Definition datagram (seq idx count size : Byte.byte) (payload : bytes) : bytes :=
  [x4e; x44; x49; x42;                      (* magic *)
   x01; x00; x00; x00;                      (* version, media type, source, flags *)
   x00; x00; x00; seq;                      (* sequence number *)
   x00; x00; x00; x00; x00; x00; x00; x00;  (* timestamp *)
   x00; x00; x00; x00;                      (* total size *)
   x00; idx;                                (* fragment index *)
   x00; count;                              (* fragment count *)
   x00; size;                               (* payload size *)
   x00; x00; x00; x00;                      (* sample rate *)
   x00;                                     (* channels *)
   x00; x00; x00]                           (* padding up to 38 bytes *)
  ++ payload.

(** Sequence 0, index 1 of 1: an index outside [0 .. count-1]. *)
Definition stray_index_datagram : bytes := datagram x00 x01 x01 x00 [].

(** Sequence 42, index 0 of 1, ten payload bytes declared, three sent. *)
Definition truncated_datagram : bytes := datagram x2a x00 x01 x0a ABC.

(** A receiver as [run] has it when the loop starts: sender and decoder
    are up. *)
Definition started_receiver (now : Q) : NDIBridgeReceiver := {|
  running := true;
  video_reassembler := new_reassembler "video";
  audio_reassembler := new_reassembler "audio";
  packets_received := 0;
  video_frames := 0;
  audio_frames := 0;
  bytes_received := 0;
  last_stats_time := now;
  ndi_send := true;
  ffmpeg_process := true
|}.

(** Collaborators that never fail. *)
Definition calm : World := {|
  stdin_write_raises := fun _ => false;
  ndi_audio_raises := fun _ _ _ => false
|}.

(** ** The decoder thread of [receiver.py] (lines 169-198)

    [decoder_loop] runs in a thread of its own.  It shares the receiver
    object with the receive loop; here it is modelled on its own, so what
    it reads from shared state or from the decoder is given as input: for
    every turn of the loop the value of [self.running] it sees and the
    result of [stdout.read(frame_size)].  [self.width] and [self.height]
    are arguments. *)

Inductive FourCCVideoType : Type := FOURCC_VIDEO_TYPE_UYVY.

Record VideoFrameV2 : Type := mkVideoFrame {
  xres : Z;
  yres : Z;
  FourCC : FourCCVideoType;
  frame_rate_N : Z;
  frame_rate_D : Z;
  picture_aspect_ratio : Q;
  line_stride_in_bytes : Z;
  frame_bytes : bytes       (* the [data] of the frame *)
}.

Inductive decoder_event : Type :=
  | NdiSendVideo (frame : VideoFrameV2)
  | PrintDecoderError (e : exn).

Definition count_video_frame (self : NDIBridgeReceiver) : NDIBridgeReceiver :=
  {| running := running self;
     video_reassembler := video_reassembler self;
     audio_reassembler := audio_reassembler self;
     packets_received := packets_received self;
     video_frames := video_frames self + 1;
     audio_frames := audio_frames self;
     bytes_received := bytes_received self;
     last_stats_time := last_stats_time self;
     ndi_send := ndi_send self;
     ffmpeg_process := ffmpeg_process self |}.

(** [send_ndi_video]; [video_raises] tells whether the call into NDIlib
    raises.  The aspect ratio [self.width / self.height] is a true
    division: it raises for a height of zero. *)
Definition send_ndi_video (video_raises : bytes → bool) (width height : Z)
    (self : NDIBridgeReceiver) (frame_data : bytes)
  : NDIBridgeReceiver * list decoder_event * res unit :=
  if negb (ndi_send self) then (self, [], Ok tt) else
  if decide (height = 0) then (self, [], Raise ZeroDivisionError) else
  let video_frame := {|
    xres := width;
    yres := height;
    FourCC := FOURCC_VIDEO_TYPE_UYVY;
    frame_rate_N := 30000;
    frame_rate_D := 1000;
    picture_aspect_ratio := Qdiv (inject_Z width) (inject_Z height);
    line_stride_in_bytes := width * 2;
    frame_bytes := frame_data |} in
  if video_raises frame_data then (self, [], Raise ExternalError) else
  (count_video_frame self, [NdiSendVideo video_frame], Ok tt).

Record decoder_turn : Type := mkTurn {
  running_seen : bool;
  read_result : res bytes
}.

(** The third component tells whether the loop has ended. *)
Fixpoint decoder_loop (video_raises : bytes → bool) (width height : Z)
    (self : NDIBridgeReceiver) (turns : list decoder_turn)
  : NDIBridgeReceiver * list decoder_event * bool :=
  let frame_size := width * height * 2 in
  match turns with
  | [] => (self, [], false)
  | t :: rest =>
      if running_seen t && ffmpeg_process self then
        match read_result t with
        | Raise e => (self, [PrintDecoderError e], true)
        | Ok data =>
            if decide (Z.of_nat (length data) = frame_size) then
              let '(self1, out, st) :=
                send_ndi_video video_raises width height self data in
              match st with
              | Raise e => (self1, out ++ [PrintDecoderError e], true)
              | Ok _ =>
                  let '(final, out', ended) :=
                    decoder_loop video_raises width height self1 rest in
                  (final, out ++ out', ended)
              end
            else decoder_loop video_raises width height self rest
        end
      else (self, [], true)
  end.

(** The frames a run of the decoder thread handed to the sender. *)
Definition sent_frames (out : list decoder_event) : list VideoFrameV2 :=
  omap (fun ev => match ev with
                  | NdiSendVideo frame => Some frame
                  | PrintDecoderError _ => None
                  end) out.

(** ** The reassembly written out in [receiver_av.py] and
    [receiver_minimal.py]

    Lines 150-157 and 165-172 of [receiver_av.py] and lines 111-120 of
    [receiver_minimal.py] are one and the same block up to the names of
    the local variables: [frags] is the dictionary, [cur] the sequence
    being collected.  What follows a completed frame differs and is in
    the callers below. *)
Definition inline_reassemble (frags : gmap Z bytes) (cur : option Z)
    (seq frag_idx frag_count : Z) (payload : bytes)
  : gmap Z bytes * option Z * res (option bytes) :=
  let '(frags, cur) :=
    if decide (cur ≠ Some seq) then (∅, Some seq) else (frags, cur) in
  let frags := <[frag_idx := payload]> frags in
  if decide (Z.of_nat (size frags) = frag_count) then
    match join_fragments frags (seqZ 0 frag_count) with
    | Ok frame => (∅, None, Ok (Some frame))
    | Raise e => (frags, cur, Raise e)
    end
  else (frags, cur, Ok None).

(** ** [receiver_av.py]: one datagram in [Receiver.run] (lines 131-173) *)
Module AV.

Record Receiver : Type := mkReceiver {
  video_frames : Z;
  audio_frames : Z;
  packets : Z;
  h264_frames : Z;
  af : bool               (* an audio frame object, or None *)
}.

(** The local variables of [run]. *)
Record Locals : Type := mkLocals {
  video_frags : gmap Z bytes;
  video_seq : option Z;
  audio_frags : gmap Z bytes;
  audio_seq : option Z
}.

Inductive event : Type :=
  | FfmpegWrite (frame : bytes)
  | PrintFirstFrame (len : Z)
  | WriteAudio (data : bytes) (chans : Z)
  | PrintAudioError.

(** Whether writing to the decoder raises, and whether anything in the
    [try] block of [send_audio] does. *)
Record World : Type := mkWorld {
  stdin_write_raises : bytes → bool;
  audio_attempt_raises : bytes → Z → bool
}.

(** [Receiver.__init__], as far as these fields go. *)
Definition new_receiver : Receiver := {|
  video_frames := 0; audio_frames := 0; packets := 0; h264_frames := 0;
  af := false
|}.

Definition new_locals : Locals := {|
  video_frags := ∅; video_seq := None; audio_frags := ∅; audio_seq := None
|}.

(** [send_audio]: every exception of its body is caught and printed. *)
Definition send_audio (w : World) (self : Receiver) (audio_data : bytes)
    (chans : Z) : Receiver * list event :=
  if negb (af self) then (self, []) else
  if audio_attempt_raises w audio_data chans then (self, [PrintAudioError]) else
  ({| video_frames := video_frames self;
      audio_frames := audio_frames self + 1;
      packets := packets self;
      h264_frames := h264_frames self;
      af := af self |},
   [WriteAudio audio_data chans]).

Record step : Type := mkStep {
  receiver : Receiver;
  locals : Locals;
  events : list event;
  status : res unit
}.

Definition count_packet (self : Receiver) : Receiver :=
  {| video_frames := video_frames self;
     audio_frames := audio_frames self;
     packets := packets self + 1;
     h264_frames := h264_frames self;
     af := af self |}.

Definition count_h264 (self : Receiver) : Receiver :=
  {| video_frames := video_frames self;
     audio_frames := audio_frames self;
     packets := packets self;
     h264_frames := h264_frames self + 1;
     af := af self |}.

Definition receive_datagram (w : World) (self : Receiver) (loc : Locals)
    (data : bytes) : step :=
  let skip := mkStep self loc [] (Ok tt) in
  let fail e := mkStep self loc [] (Raise e) in
  if decide (length data < HEADER_SIZE)%nat then skip else
  match unpack_be 4 (slice data 0 4) with
  | Raise e => fail e
  | Ok magic_ =>
  if decide (magic_ ≠ MAGIC) then skip else
  match
    media_type_ <~ index data 5;
    seq <~ unpack_be 4 (slice data 8 12);
    frag_idx <~ unpack_be 2 (slice data 24 26);
    frag_count <~ unpack_be 2 (slice data 26 28);
    payload_size_ <~ unpack_be 2 (slice data 28 30);
    channels_ <~ index data 34;
    Ok (media_type_, seq, frag_idx, frag_count, payload_size_, channels_)
  with
  | Raise e => fail e
  | Ok (media_type_, seq, frag_idx, frag_count, payload_size_, channels_) =>
      let payload :=
        slice data HEADER_SIZE (HEADER_SIZE + Z.to_nat payload_size_) in
      let self := count_packet self in
      if decide (media_type_ = 0) then
        let '(frags, cur, r) :=
          inline_reassemble (video_frags loc) (video_seq loc)
            seq frag_idx frag_count payload in
        let loc := {| video_frags := frags; video_seq := cur;
                      audio_frags := audio_frags loc;
                      audio_seq := audio_seq loc |} in
        match r with
        | Raise e => mkStep self loc [] (Raise e)
        | Ok None => mkStep self loc [] (Ok tt)
        | Ok (Some frame) =>
            if stdin_write_raises w frame
            then mkStep self loc [] (Raise ExternalError)
            else
              let self := count_h264 self in
              mkStep self loc
                (FfmpegWrite frame ::
                 if decide (h264_frames self = 1)
                 then [PrintFirstFrame (Z.of_nat (length frame))] else [])
                (Ok tt)
        end
      else if decide (media_type_ = 1) then
        let '(frags, cur, r) :=
          inline_reassemble (audio_frags loc) (audio_seq loc)
            seq frag_idx frag_count payload in
        let loc := {| video_frags := video_frags loc;
                      video_seq := video_seq loc;
                      audio_frags := frags; audio_seq := cur |} in
        match r with
        | Raise e => mkStep self loc [] (Raise e)
        | Ok None => mkStep self loc [] (Ok tt)
        | Ok (Some frame) =>
            let '(self, out) :=
              send_audio w self frame
                (if decide (0 < channels_) then channels_ else 2) in
            mkStep self loc out (Ok tt)
        end
      else mkStep self loc [] (Ok tt)
  end
  end.

End AV.

(** ** [receiver_minimal.py]: one datagram in [MinimalReceiver.run]
    (lines 91-122) *)
Module Minimal.

(** The local variables of [run]. *)
Record Locals : Type := mkLocals {
  fragments : gmap Z bytes;
  current_seq : option Z;
  packets : Z
}.

Definition new_locals : Locals :=
  {| fragments := ∅; current_seq := None; packets := 0 |}.

Record step : Type := mkStep {
  locals : Locals;
  written : list bytes;     (* frames written to the decoder *)
  status : res unit
}.

Definition receive_datagram (stdin_write_raises : bytes → bool)
    (loc : Locals) (data : bytes) : step :=
  let skip := mkStep loc [] (Ok tt) in
  let fail e := mkStep loc [] (Raise e) in
  if decide (length data < HEADER_SIZE)%nat then skip else
  match unpack_be 4 (slice data 0 4) with
  | Raise e => fail e
  | Ok magic_ =>
  if decide (magic_ ≠ MAGIC) then skip else
  match index data 5 with
  | Raise e => fail e
  | Ok media_type_ =>
  if decide (media_type_ ≠ 0) then skip else
  match
    seq <~ unpack_be 4 (slice data 8 12);
    frag_idx <~ unpack_be 2 (slice data 24 26);
    frag_count <~ unpack_be 2 (slice data 26 28);
    payload_size_ <~ unpack_be 2 (slice data 28 30);
    Ok (seq, frag_idx, frag_count, payload_size_)
  with
  | Raise e => fail e
  | Ok (seq, frag_idx, frag_count, payload_size_) =>
      let payload :=
        slice data HEADER_SIZE (HEADER_SIZE + Z.to_nat payload_size_) in
      let '(frags, cur, r) :=
        inline_reassemble (fragments loc) (current_seq loc)
          seq frag_idx frag_count payload in
      let loc := {| fragments := frags; current_seq := cur;
                    packets := packets loc + 1 |} in
      match r with
      | Raise e => mkStep loc [] (Raise e)
      | Ok None => mkStep loc [] (Ok tt)
      | Ok (Some frame) =>
          if stdin_write_raises frame
          then mkStep loc [] (Raise ExternalError)
          else mkStep loc [frame] (Ok tt)
      end
  end
  end
  end.

End Minimal.

(** The three receivers hold the same fragments: the reassemblers of
    [receiver.py] against the local variables of the other two. *)
Definition same_video (self : NDIBridgeReceiver) (frags : gmap Z bytes)
    (cur : option Z) : Prop :=
  fragments (video_reassembler self) = frags ∧
  current_sequence (video_reassembler self) = cur.

Definition same_audio (self : NDIBridgeReceiver) (frags : gmap Z bytes)
    (cur : option Z) : Prop :=
  fragments (audio_reassembler self) = frags ∧
  current_sequence (audio_reassembler self) = cur.

(** ** The parser against the wire table *)
Lemma keyframe_bit (v : Z) : bool_decide (Z.land v 0x01 = 1) = Z.testbit v 0.
Proof.
  assert (E : Z.land v 1 = if Z.odd v then 1 else 0).
  { change 1 with (Z.ones 1) at 1. rewrite (Z.land_ones v 1) by lia.
    change (2 ^ 1) with 2. by rewrite Zmod_odd. }
  rewrite Z.bit0_odd. destruct (Z.odd v).
  - by apply bool_decide_eq_true.
  - apply bool_decide_eq_false. by rewrite E.
Qed.

Lemma be_value_slice (data : bytes) (off w : nat) :
  (off + w ≤ length data)%nat →
  be_value (slice data off (off + w)) = wire_field data off w.
Proof.
  unfold be_value, wire_field, slice.
  replace (off + w - off)%nat with w by lia.
  induction w as [|w IH]; intros Hlen; [done|].
  destruct (lookup_lt_is_Some_2 data (off + w)) as [x Hx]; [lia|].
  rewrite (take_S_r _ _ x) by (by rewrite lookup_drop).
  rewrite seq_S, !foldl_app. cbn [foldl]. rewrite IH by lia.
  unfold byte_at. cbn [Nat.add]. by rewrite Hx.
Qed.

Lemma unpack_slice (data : bytes) (off e w : nat) :
  e = (off + w)%nat → (e ≤ length data)%nat →
  unpack_be w (slice data off e) = Ok (wire_field data off w).
Proof.
  intros -> Hlen. unfold unpack_be.
  rewrite decide_True.
  - by rewrite be_value_slice.
  - unfold slice. rewrite length_take, length_drop. lia.
Qed.

Lemma index_wire (data : bytes) (i : nat) :
  (i < length data)%nat → index data i = Ok (wire_field data i 1).
Proof.
  intros Hlen. destruct (lookup_lt_is_Some_2 data i Hlen) as [x Hx].
  unfold index, wire_field, byte_at. cbn [seq foldl].
  rewrite Nat.add_0_r, Hx. done.
Qed.

Lemma parse_header_short (data : bytes) :
  (length data < HEADER_SIZE)%nat → parse_header data = Ok None.
Proof. intros H. unfold parse_header. by rewrite decide_True. Qed.

Lemma parse_header_long (data : bytes) :
  (HEADER_SIZE ≤ length data)%nat →
  parse_header data =
    if decide (wire_field data 0 4 ≠ MAGIC) then Ok None
    else Ok (Some (wire_header data)).
Proof.
  intros H. unfold parse_header. rewrite decide_False by lia.
  unfold HEADER_SIZE in H.
  rewrite (unpack_slice data 0 4 4) by (done || lia). cbn [res_bind].
  destruct (decide _) as [|_]; [done|].
  rewrite !index_wire by lia. cbn [res_bind].
  rewrite (unpack_slice data 8 12 4), (unpack_slice data 12 20 8),
    (unpack_slice data 20 24 4), (unpack_slice data 24 26 2),
    (unpack_slice data 26 28 2), (unpack_slice data 28 30 2),
    (unpack_slice data 30 34 4) by (done || lia).
  cbn [res_bind]. by rewrite keyframe_bit.
Qed.


(** C6.  [parse_header] returns [None] exactly when the datagram is shorter
    than 38 bytes or its first four bytes, read as a big-endian 32-bit
    integer, differ from 0x4E444942.  On every other input it returns the
    header whose fields are read big-endian at the offsets of the wire
    table, whatever the other field values are; in particular it never
    raises. *)
Theorem parse_header_wire_table (data : bytes) :
  (parse_header data = Ok None ↔
     (length data < HEADER_SIZE)%nat ∨ wire_field data 0 4 ≠ MAGIC) ∧
  ((HEADER_SIZE ≤ length data)%nat → wire_field data 0 4 = MAGIC →
     parse_header data = Ok (Some (wire_header data))).
Proof.
  destruct (decide (length data < HEADER_SIZE)%nat) as [Hshort|Hlong].
  - rewrite parse_header_short by done. split; [naive_solver|lia].
  - rewrite parse_header_long by lia.
    destruct (decide (wire_field data 0 4 ≠ MAGIC)) as [Hbad|Hgood].
    + split; [naive_solver|congruence].
    + split; [|done]. split; [done|]. intros [?|?]; [lia|done].
Qed.

Lemma parse_header_wire_table_witness :
  (HEADER_SIZE ≤ length truncated_datagram)%nat ∧
  wire_field truncated_datagram 0 4 = MAGIC ∧
  parse_header truncated_datagram = Ok (Some (wire_header truncated_datagram)).
Proof.
  assert (H1 : (HEADER_SIZE ≤ length truncated_datagram)%nat) by (vm_compute; lia).
  assert (H2 : wire_field truncated_datagram 0 4 = MAGIC) by reflexivity.
  split; [exact H1|]. split; [exact H2|].
  exact (proj2 (parse_header_wire_table truncated_datagram) H1 H2).
Defined.

(** ** Reassembler: elementary facts *)

Section reassembler_facts.
Implicit Types (self : FrameReassembler) (h : Header) (p : bytes).
Implicit Types (m : gmap Z bytes) (l : list fragment).

Lemma join_fragments_ok m idxs ps :
  Forall2 (fun i q => m !! i = Some q) idxs ps →
  join_fragments m idxs = Ok (mjoin ps).
Proof.
  induction 1 as [|i q idxs ps Hi _ IH]; [done|].
  cbn [join_fragments]. by rewrite Hi, IH.
Qed.

Lemma begin_sequence_same self seq n :
  current_sequence self = Some seq → begin_sequence self seq n = (self, []).
Proof. intros H. unfold begin_sequence. by rewrite decide_False by congruence. Qed.

Lemma begin_sequence_other self seq n :
  current_sequence self ≠ Some seq →
  (begin_sequence self seq n).1 = mkReassembler (name self) ∅ (Some seq) n.
Proof. intros H. unfold begin_sequence. by rewrite decide_True. Qed.

Lemma add_fragment_after self h p :
  after (add_fragment self h p) =
    (store_fragment (begin_sequence self (sequence_number h) (fragment_count h)).1
       (fragment_index h) (fragment_count h) p).1.
Proof.
  unfold add_fragment. destruct (begin_sequence _ _ _) as [s o]. cbn.
  by destruct (store_fragment _ _ _ _).
Qed.

Lemma add_fragment_returned self h p :
  returned (add_fragment self h p) =
    (store_fragment (begin_sequence self (sequence_number h) (fragment_count h)).1
       (fragment_index h) (fragment_count h) p).2.
Proof.
  unfold add_fragment. destruct (begin_sequence _ _ _) as [s o]. cbn.
  by destruct (store_fragment _ _ _ _).
Qed.

Lemma store_fragment_pending self i n p :
  Z.of_nat (size (<[i := p]> (fragments self))) ≠ n →
  store_fragment self i n p =
    (mkReassembler (name self) (<[i := p]> (fragments self))
       (current_sequence self) (expected_count self), Ok None).
Proof. intros H. unfold store_fragment. cbn. by rewrite decide_False. Qed.

Lemma store_fragment_complete self i n p ps :
  Z.of_nat (size (<[i := p]> (fragments self))) = n →
  Forall2 (fun k q => <[i := p]> (fragments self) !! k = Some q) (seqZ 0 n) ps →
  store_fragment self i n p =
    (mkReassembler (name self) ∅ None (expected_count self), Ok (Some (mjoin ps))).
Proof.
  intros H Hall. unfold store_fragment. cbn. rewrite decide_True by done.
  by rewrite (join_fragments_ok _ _ ps).
Qed.

Lemma add_fragments_app self l1 l2 :
  add_fragments self (l1 ++ l2) =
    ((add_fragments (add_fragments self l1).1 l2).1,
     (add_fragments self l1).2 ++ (add_fragments (add_fragments self l1).1 l2).2).
Proof.
  revert self. induction l1 as [|[h p] l1 IH]; intros self.
  - cbn. by destruct (add_fragments self l2).
  - cbn. rewrite IH.
    destruct (add_fragments (after (add_fragment self h p)) l1) as [s1 r1].
    by destruct (add_fragments s1 l2).
Qed.

Lemma collect_lookup_notin m l k :
  k ∉ frag_key <$> l → collect m l !! k = m !! k.
Proof.
  revert m. induction l as [|f l IH]; intros m Hk; [done|].
  rewrite fmap_cons, not_elem_of_cons in Hk. destruct Hk as [Hne Hk].
  cbn. unfold collect in IH. rewrite IH by done. by rewrite lookup_insert_ne.
Qed.

Lemma collect_lookup m l f :
  NoDup (frag_key <$> l) → f ∈ l → collect m l !! frag_key f = Some f.2.
Proof.
  revert m. induction l as [|g l IH]; intros m Hnd Hin.
  - by apply elem_of_nil in Hin.
  - rewrite fmap_cons in Hnd. apply NoDup_cons in Hnd as [Hg Hnd].
    apply elem_of_cons in Hin as [->|Hin].
    + change (collect m (g :: l)) with (collect (<[frag_key g := g.2]> m) l).
      rewrite collect_lookup_notin by done. apply lookup_insert_eq.
    + by apply IH.
Qed.

Lemma collect_size m l :
  NoDup (frag_key <$> l) → (∀ f, f ∈ l → m !! frag_key f = None) →
  size (collect m l) = (size m + length l)%nat.
Proof.
  revert m. induction l as [|g l IH]; intros m Hnd Hfresh; [cbn; lia|].
  rewrite fmap_cons in Hnd. apply NoDup_cons in Hnd as [Hg Hnd].
  change (collect m (g :: l)) with (collect (<[frag_key g := g.2]> m) l).
  rewrite IH; [| done |].
  - rewrite map_size_insert_None by (apply Hfresh; left). cbn. lia.
  - intros f Hf. rewrite lookup_insert_ne; [apply Hfresh; by right|].
    intros E. apply Hg. rewrite E. by apply list_elem_of_fmap_2.
Qed.
End reassembler_facts.

Section one_sequence.
Variables S N : Z.
Implicit Types (self : FrameReassembler) (l : list fragment).

Lemma collecting self l :
  current_sequence self = Some S →
  Forall (of_sequence S N) l →
  NoDup (frag_key <$> l) →
  (∀ f, f ∈ l → fragments self !! frag_key f = None) →
  Z.of_nat (size (fragments self) + length l) < N →
  add_fragments self l =
    (mkReassembler (name self) (collect (fragments self) l) (Some S)
       (expected_count self),
     replicate (length l) (Ok None)).
Proof.
  revert self. induction l as [|[h p] l IH]; intros self Hcur Hall Hnd Hfresh Hsz.
  - destruct self; cbn in *; by subst.
  - apply Forall_cons in Hall as [[Hs Hn] Hall]. cbn in Hs, Hn.
    rewrite fmap_cons in Hnd. apply NoDup_cons in Hnd as [Hk Hnd].
    assert (fragments self !! fragment_index h = None) as Hnew
      by (apply (Hfresh (h, p)); left).
    cbn [add_fragments]. cbv zeta.
    rewrite add_fragment_returned, add_fragment_after, Hs, Hn.
    rewrite begin_sequence_same by done. cbn [fst].
    rewrite store_fragment_pending
      by (rewrite map_size_insert_None by done; cbn [length] in Hsz; lia).
    cbn [fst snd]. rewrite IH; [done..| |].
    + intros f Hf. cbn. rewrite lookup_insert_ne; [apply Hfresh; by right|].
      intros E. apply Hk. change (fragment_index h) with (frag_key (h, p)) in E.
      rewrite E. by apply list_elem_of_fmap_2.
    + cbn [fragments]. rewrite map_size_insert_None by done.
      cbn [length] in Hsz. lia.
Qed.

Lemma add_fragments_begin self l :
  current_sequence self ≠ Some S → l ≠ [] →
  Forall (of_sequence S N) l →
  add_fragments self l = add_fragments (mkReassembler (name self) ∅ (Some S) N) l.
Proof.
  intros Hcur Hne Hall. destruct l as [|[h p] l]; [done|].
  apply Forall_cons in Hall as [[Hs Hn] _]. cbn in Hs, Hn.
  cbn [add_fragments]. cbv zeta.
  rewrite !add_fragment_returned, !add_fragment_after, Hs, Hn.
  rewrite begin_sequence_other by done.
  by rewrite begin_sequence_same by done.
Qed.
End one_sequence.

Lemma collect_app (m : gmap Z bytes) (l1 l2 : list fragment) :
  collect m (l1 ++ l2) = collect (collect m l1) l2.
Proof. apply foldl_app. Qed.

Lemma complete_delivery (S N : Z) (self : FrameReassembler)
    (ordered delivered : list fragment) :
  current_sequence self = Some S → fragments self = ∅ →
  frag_key <$> ordered = seqZ 0 N →
  Forall (of_sequence S N) ordered →
  delivered ≡ₚ ordered →
  1 ≤ N →
  add_fragments self delivered =
    (mkReassembler (name self) ∅ None (expected_count self),
     replicate (Z.to_nat N - 1) (Ok None) ++ [Ok (Some (mjoin (snd <$> ordered)))]).
Proof.
  intros Hcur Hempty Hidx Hall Hperm HN.
  assert (length delivered = Z.to_nat N) as Hlen.
  { rewrite Hperm, <-(length_fmap frag_key), Hidx. apply length_seqZ. }
  assert (NoDup (frag_key <$> delivered)) as Hnd.
  { rewrite Hperm, Hidx. apply NoDup_seqZ. }
  assert (Forall (of_sequence S N) delivered) as Hall' by (by rewrite Hperm).
  destruct delivered as [|[h p] init _] using rev_ind; [cbn in Hlen; lia|].
  rewrite length_app in Hlen. cbn in Hlen.
  rewrite fmap_app in Hnd. apply NoDup_app in Hnd as (Hnd1 & Hdisj & _).
  apply Forall_app in Hall' as [Hall1 [[Hs Hn] _]%Forall_cons_1].
  cbn in Hs, Hn.
  rewrite add_fragments_app.
  rewrite (collecting S N self init); [|done..| |].
  - cbn [fst snd add_fragments]. cbv zeta.
    rewrite add_fragment_returned, add_fragment_after, Hs, Hn.
    rewrite begin_sequence_same by done. cbn [fst].
    rewrite (store_fragment_complete _ _ _ _ (snd <$> ordered)).
    + cbn. replace (length init) with (Z.to_nat N - 1)%nat by lia. done.
    + cbn [fragments]. rewrite Hempty.
      change (<[fragment_index h:=p]> (collect ∅ init))
        with (collect (collect ∅ init) [(h, p)]).
      rewrite <-collect_app, collect_size, map_size_empty.
      * rewrite length_app. cbn. lia.
      * rewrite fmap_app. apply NoDup_app. split_and!; [done|done|].
        cbn. apply NoDup_singleton.
      * intros; apply lookup_empty.
    + cbn [fragments]. rewrite Hempty.
      change (<[fragment_index h:=p]> (collect ∅ init))
        with (collect (collect ∅ init) [(h, p)]).
      rewrite <-collect_app, <-Hidx. apply Forall2_fmap, Forall_Forall2_diag.
      apply Forall_forall. intros f Hf. apply collect_lookup.
      * rewrite fmap_app. apply NoDup_app. split_and!; [done|done|].
        cbn. apply NoDup_singleton.
      * by rewrite Hperm.
  - intros f _. rewrite Hempty. apply lookup_empty.
  - rewrite Hempty, map_size_empty. lia.
Qed.

Lemma permuted_delivery (S N : Z) (self : FrameReassembler)
    (ordered delivered : list fragment) :
  1 ≤ N →
  current_sequence self ≠ Some S →
  frag_key <$> ordered = seqZ 0 N →
  Forall (of_sequence S N) ordered →
  delivered ≡ₚ ordered →
  (add_fragments self delivered).2 =
    replicate (Z.to_nat N - 1) (Ok None) ++ [Ok (Some (mjoin (snd <$> ordered)))].
Proof.
  intros HN Hcur Hidx Hall Hperm.
  assert (delivered ≠ []) as Hne.
  { intros ->. apply Permutation_nil_l in Hperm. subst ordered.
    cbn in Hidx. rewrite seqZ_cons in Hidx by lia. done. }
  rewrite (add_fragments_begin S N) by (done || by rewrite Hperm).
  by rewrite (complete_delivery S N _ ordered).
Qed.

(** C1.  Let the fragments of sequence [S] be [ordered]: [N >= 1] of them,
    with indices 0, 1, ..., N-1 in this order, each announcing the count
    [N].  Delivered in any permutation to a reassembler that is not
    collecting [S] (a new one, for instance), the first [N-1] calls return
    [None] and the [N]th returns the concatenation of the payloads in
    index order. *)
Theorem any_permutation_completes (S N : Z) (self : FrameReassembler)
    (ordered delivered : list fragment) :
  1 ≤ N →
  current_sequence self ≠ Some S →
  frag_key <$> ordered = seqZ 0 N →
  Forall (of_sequence S N) ordered →
  delivered ≡ₚ ordered →
  (add_fragments self delivered).2 =
    replicate (Z.to_nat N - 1) (Ok None) ++ [Ok (Some (mjoin (snd <$> ordered)))].
Proof. apply permuted_delivery. Qed.

Lemma any_permutation_completes_witness :
  (add_fragments (new_reassembler "video")
     [(video_header 42 1 2, DEF); (video_header 42 0 2, ABC)]).2 =
    [Ok None; Ok (Some (ABC ++ DEF))].
Proof.
  apply (any_permutation_completes 42 2 (new_reassembler "video")
           [(video_header 42 0 2, ABC); (video_header 42 1 2, DEF)]).
  - lia.
  - discriminate.
  - reflexivity.
  - repeat constructor.
  - apply perm_swap.
Defined.

(** ** One call, case by case *)

Lemma join_fragments_raise (m : gmap Z bytes) (idxs : list Z) (e : exn) :
  join_fragments m idxs = Raise e →
  ∃ k, e = KeyError k ∧ k ∈ idxs ∧ m !! k = None.
Proof.
  induction idxs as [|i idxs IH]; [done|]. cbn [join_fragments].
  destruct (m !! i) eqn:Hi.
  - destruct (join_fragments m idxs) as [d|e'] eqn:Hj; [done|].
    cbn. intros [= <-]. destruct (IH eq_refl) as (k & -> & Hk & Hm).
    exists k. split_and!; [done| by right |done].
  - intros [= <-]. exists i. split_and!; [done| by left |done].
Qed.

Lemma join_fragments_present (m : gmap Z bytes) (idxs : list Z) (data : bytes) :
  join_fragments m idxs = Ok data → ∀ i, i ∈ idxs → is_Some (m !! i).
Proof.
  revert data. induction idxs as [|j idxs IH]; intros data Hj i Hi.
  - by apply elem_of_nil in Hi.
  - cbn [join_fragments] in Hj. destruct (m !! j) eqn:Hmj; [|done].
    destruct (join_fragments m idxs) as [d|] eqn:Hrest; [|done].
    apply elem_of_cons in Hi as [->|Hi]; [by rewrite Hmj|by eapply IH].
Qed.

Lemma begin_sequence_fst (self : FrameReassembler) (seq n : Z) :
  (begin_sequence self seq n).1 =
    mkReassembler (name self) (stored_before self seq) (Some seq)
      (expected_after self seq n).
Proof.
  unfold begin_sequence, stored_before, expected_after.
  destruct (decide (current_sequence self = Some seq)) as [E|E].
  - rewrite decide_False by (by intros []). destruct self; cbn in *; by subst.
  - by rewrite decide_True.
Qed.

Lemma add_fragment_inv (self : FrameReassembler) (h : Header) (p : bytes) :
  let seq := sequence_number h in
  let n := fragment_count h in
  let m := <[fragment_index h := p]> (stored_before self seq) in
  let e := expected_after self seq n in
  let c := add_fragment self h p in
  (after c = mkReassembler (name self) m (Some seq) e ∧
   (returned c = Ok None ∧ Z.of_nat (size m) ≠ n ∨
    ∃ k, returned c = Raise (KeyError k) ∧ Z.of_nat (size m) = n ∧
         0 ≤ k < n ∧ m !! k = None)) ∨
  (after c = mkReassembler (name self) ∅ None e ∧ Z.of_nat (size m) = n ∧
   ∃ data, returned c = Ok (Some data) ∧
           join_fragments m (seqZ 0 n) = Ok data).
Proof.
  intros seq n m e c. subst c.
  rewrite add_fragment_after, add_fragment_returned, begin_sequence_fst.
  fold seq n m e. unfold store_fragment. cbn. fold m.
  destruct (decide (Z.of_nat (size m) = n)) as [Hsz|Hsz].
  - destruct (join_fragments m (seqZ 0 n)) as [data|ex] eqn:Hj; cbn.
    + right. eauto.
    + left. split; [done|]. right.
      destruct (join_fragments_raise _ _ _ Hj) as (k & -> & Hk & Hm).
      apply elem_of_seqZ in Hk. exists k. split_and!; [done|done|lia|lia|done].
  - left. split; [done|]. by left.
Qed.

(** ** A sequence abandoned for the next one *)

Lemma partial_delivery (S N : Z) (self : FrameReassembler) (l : list fragment) :
  current_sequence self ≠ Some S → l ≠ [] →
  Forall (of_sequence S N) l →
  NoDup (frag_key <$> l) →
  Z.of_nat (length l) < N →
  add_fragments self l =
    (mkReassembler (name self) (collect ∅ l) (Some S) N,
     replicate (length l) (Ok None)).
Proof.
  intros Hcur Hne Hall Hnd Hlen.
  rewrite (add_fragments_begin S N) by done.
  rewrite (collecting S N); cbn; [done..| |].
  - intros; apply lookup_empty.
  - rewrite map_size_empty. lia.
Qed.

(** C7.  The trace is a proper part of the fragments of sequence [S]
    (distinct indices, fewer than the [N] announced) followed by fragments
    of sequence [S+1] only (distinct indices, [M] announced).  No call
    returns a frame while fragments of [S+1] are still missing, so none is
    ever emitted for [S]; the first fragment of [S+1] leaves nothing of
    [S] in the dictionary; and the frame of [S+1] is returned by the call
    that delivers the last of its [M] indices. *)
Theorem superseded_sequence_is_dropped (S N M : Z) (self : FrameReassembler)
    (partial next : list fragment) :
  current_sequence self ≠ Some S →
  current_sequence self ≠ Some (S + 1) →
  Forall (of_sequence S N) partial →
  NoDup (frag_key <$> partial) →
  Z.of_nat (length partial) < N →
  Forall (of_sequence (S + 1) M) next →
  NoDup (frag_key <$> next) →
  (Z.of_nat (length next) < M →
     (add_fragments self (partial ++ next)).2 =
       replicate (length partial + length next) (Ok None)) ∧
  (∀ ordered, 1 ≤ M → frag_key <$> ordered = seqZ 0 M → next ≡ₚ ordered →
     (add_fragments self (partial ++ next)).2 =
       replicate (length partial + (Z.to_nat M - 1)) (Ok None)
         ++ [Ok (Some (mjoin (snd <$> ordered)))]) ∧
  (∀ f rest, next = f :: rest →
     fragments (add_fragments self (partial ++ [f])).1 ⊆ {[frag_key f := f.2]}).
Proof.
  intros HcurS HcurS' Hpart Hnd Hlen Hnext Hnd'.
  assert (∃ st, add_fragments self partial =
                  (st, replicate (length partial) (Ok None)) ∧
                current_sequence st ≠ Some (S + 1)) as (st & Hst & Hcur).
  { destruct (decide (partial = [])) as [->|Hne]; [by exists self|].
    rewrite (partial_delivery S N) by done.
    eexists; split; [done|]. cbn. intros [=]. lia. }
  split_and!.
  - intros Hlen'. rewrite add_fragments_app, Hst. cbn [fst snd].
    destruct (decide (next = [])) as [->|Hne].
    + cbn. by rewrite app_nil_r, Nat.add_0_r.
    + rewrite (partial_delivery (S + 1) M) by done. cbn [snd].
      by rewrite replicate_add.
  - intros ordered HM Hidx Hperm. rewrite add_fragments_app, Hst. cbn [fst snd].
    rewrite (permuted_delivery (S + 1) M st ordered next)
      by (done || by rewrite <-Hperm).
    by rewrite replicate_add, <-app_assoc.
  - intros [h p] rest ->. rewrite add_fragments_app, Hst. cbn [fst snd add_fragments].
    apply Forall_cons in Hnext as [[Hs _] _]. cbn in Hs.
    destruct (add_fragment_inv st h p) as [[-> _]|[-> _]]; cbn.
    + unfold stored_before. rewrite Hs, decide_False by done.
      by rewrite insert_empty.
    + apply map_empty_subseteq.
Qed.

Lemma superseded_sequence_is_dropped_witness :
  (add_fragments (new_reassembler "video")
     ([(video_header 41 1 3, ABC)]
        ++ [(video_header 42 1 2, DEF); (video_header 42 0 2, ABC)])).2 =
    [Ok None; Ok None; Ok (Some (ABC ++ DEF))] ∧
  fragments (add_fragments (new_reassembler "video")
     ([(video_header 41 1 3, ABC)] ++ [(video_header 42 1 2, DEF)])).1
    ⊆ {[1 := DEF]}.
Proof.
  pose proof (superseded_sequence_is_dropped 41 3 2 (new_reassembler "video")
                [(video_header 41 1 3, ABC)]
                [(video_header 42 1 2, DEF); (video_header 42 0 2, ABC)])
    as H.
  destruct H as (_ & Hlast & Hdrop).
  - discriminate.
  - discriminate.
  - repeat constructor.
  - apply (bool_decide_unpack _). vm_compute. exact I.
  - cbn. lia.
  - repeat constructor.
  - apply (bool_decide_unpack _). vm_compute. exact I.
  - split.
    + apply (Hlast [(video_header 42 0 2, ABC); (video_header 42 1 2, DEF)]).
      * lia.
      * reflexivity.
      * apply perm_swap.
    + exact (Hdrop _ _ eq_refl).
Defined.

(** ** The completion test *)

(** Against C4 as stated.  After the first fragment of sequence 7
    announced three fragments, a second fragment of sequence 7 that
    announces two completes the frame: two indices are stored, the
    recorded count is three. *)
Lemma recorded_count_is_not_the_threshold :
  let st := after (add_fragment (new_reassembler "video") (video_header 7 0 3) ABC) in
  current_sequence st = Some (sequence_number (video_header 7 1 2)) ∧
  expected_count st = 3 ∧
  Z.of_nat (size (<[1 := DEF]> (fragments st))) ≠ expected_count st ∧
  returned (add_fragment st (video_header 7 1 2) DEF) = Ok (Some (ABC ++ DEF)).
Proof. cbv zeta. split_and!; [reflexivity|reflexivity|by vm_compute|reflexivity]. Qed.

(** C4, as the code has it.  For a call whose header carries the current
    sequence number, completion is decided by comparing the number of
    distinct stored indices with the count carried by the header of this
    very call: when they differ the call returns [None] and keeps the
    payload stored; when they agree and the indices 0 .. count-1 are all
    stored, it returns their concatenation in index order and goes back to
    idle.  The count recorded when the sequence became current is not
    consulted: whatever [expected_count] holds, the call returns the
    same. *)
Theorem completion_uses_header_count (self : FrameReassembler) (h : Header)
    (p : bytes) :
  current_sequence self = Some (sequence_number h) →
  let m := <[fragment_index h := p]> (fragments self) in
  let c := add_fragment self h p in
  (Z.of_nat (size m) ≠ fragment_count h →
     returned c = Ok None ∧ fragments (after c) = m ∧
     current_sequence (after c) = current_sequence self) ∧
  (∀ ps, Z.of_nat (size m) = fragment_count h →
     Forall2 (fun k q => m !! k = Some q) (seqZ 0 (fragment_count h)) ps →
     returned c = Ok (Some (mjoin ps)) ∧ fragments (after c) = ∅ ∧
     current_sequence (after c) = None) ∧
  (∀ e, returned (add_fragment (with_expected self e) h p) = returned c).
Proof.
  intros Hcur m c. subst c.
  rewrite add_fragment_returned, add_fragment_after.
  rewrite begin_sequence_same by done. cbn [fst]. split_and!.
  - intros Hsz. by rewrite store_fragment_pending.
  - intros ps Hsz Hall. by rewrite (store_fragment_complete _ _ _ _ ps).
  - intros e. rewrite add_fragment_returned.
    rewrite begin_sequence_same by done. cbn [fst].
    unfold store_fragment. cbn. by repeat case_match.
Qed.

Lemma completion_uses_header_count_witness :
  let st := after (add_fragment (new_reassembler "video") (video_header 7 0 3) ABC) in
  returned (add_fragment st (video_header 7 1 2) DEF) = Ok (Some (ABC ++ DEF)) ∧
  returned (add_fragment st (video_header 7 1 3) DEF) = Ok None.
Proof.
  cbv zeta.
  set (st := after (add_fragment (new_reassembler "video") (video_header 7 0 3) ABC)).
  split.
  - destruct (completion_uses_header_count st (video_header 7 1 2) DEF eq_refl)
      as (_ & Hdone & _).
    apply (Hdone [ABC; DEF]); [by vm_compute|].
    repeat constructor.
  - destruct (completion_uses_header_count st (video_header 7 1 3) DEF eq_refl)
      as (Hwait & _ & _).
    apply Hwait. by vm_compute.
Defined.

(** ** A repeated index *)

(** Against C8 as stated.  Index 0 of sequence 7 is stored; it arrives
    again, in a header that announces one fragment.  The call returns a
    frame and empties the dictionary. *)
Lemma duplicate_can_complete :
  let st := after (add_fragment (new_reassembler "video") (video_header 7 0 2) ABC) in
  let c := add_fragment st (video_header 7 0 1) DEF in
  current_sequence st = Some (sequence_number (video_header 7 0 1)) ∧
  fragments st !! fragment_index (video_header 7 0 1) = Some ABC ∧
  returned c = Ok (Some DEF) ∧
  fragments (after c) !! 0 = None ∧
  size (fragments (after c)) ≠ size (fragments st).
Proof.
  cbv zeta.
  split_and!; [reflexivity|reflexivity|reflexivity|reflexivity|by vm_compute].
Qed.

(** C8, as the code has it.  When the index of the fragment is already
    stored for the active sequence, storing it replaces the payload and
    leaves the number of distinct stored indices unchanged; and when that
    number differs from the count carried by the header of the call,
    [add_fragment] returns [None] and the object keeps the same indices,
    the repeated one now with the new payload. *)
Theorem duplicate_overwrites (self : FrameReassembler) (h : Header) (p : bytes) :
  current_sequence self = Some (sequence_number h) →
  is_Some (fragments self !! fragment_index h) →
  let m := <[fragment_index h := p]> (fragments self) in
  let c := add_fragment self h p in
  m !! fragment_index h = Some p ∧
  size m = size (fragments self) ∧
  dom m = dom (fragments self) ∧
  (Z.of_nat (size (fragments self)) ≠ fragment_count h →
     returned c = Ok None ∧ fragments (after c) = m ∧
     current_sequence (after c) = current_sequence self).
Proof.
  intros Hcur [old Hold] m c.
  assert (dom m = dom (fragments self)) as Hdom.
  { subst m. by apply dom_insert_lookup_L. }
  assert (size m = size (fragments self)) as Hsz.
  { by rewrite <-!size_dom, Hdom. }
  split_and!; [apply lookup_insert_eq|done|done|].
  intros Hne. subst c.
  rewrite add_fragment_returned, add_fragment_after.
  rewrite begin_sequence_same by done. cbn [fst].
  rewrite store_fragment_pending; [done|]. fold m. by rewrite Hsz.
Qed.

Lemma duplicate_overwrites_witness :
  let st := after (add_fragment (new_reassembler "video") (video_header 7 0 2) ABC) in
  let c := add_fragment st (video_header 7 0 2) DEF in
  returned c = Ok None ∧ fragments (after c) = <[0 := DEF]> (fragments st).
Proof.
  cbv zeta.
  set (st := after (add_fragment (new_reassembler "video") (video_header 7 0 2) ABC)).
  assert (H1 : current_sequence st = Some (sequence_number (video_header 7 0 2)))
    by reflexivity.
  assert (H2 : is_Some (fragments st !! fragment_index (video_header 7 0 2)))
    by (by exists ABC).
  destruct (duplicate_overwrites st (video_header 7 0 2) DEF H1 H2)
    as (_ & _ & _ & Hkeep).
  destruct Hkeep as (Hret & Hmap & _); [by vm_compute|].
  by split.
Defined.

(** ** The receiver *)

(** C9.  After [log_stats] the four counters are zero, whether or not a
    line was printed; with no packet received since the last report no
    line is printed at all. *)
Theorem log_stats_resets_counters (now : Q) (self : NDIBridgeReceiver) :
  let r := log_stats now self in
  (packets_received r.1 = 0 ∧ bytes_received r.1 = 0 ∧
   video_frames r.1 = 0 ∧ audio_frames r.1 = 0) ∧
  (packets_received self ≤ 0 → r.2 = []).
Proof.
  cbn. split; [done|]. intros Hnone.
  destruct (Qlt_le_dec _ _); [|done]. by rewrite decide_False by lia.
Qed.

Lemma log_stats_resets_counters_witness :
  let r := log_stats 5 (started_receiver 4) in
  (packets_received r.1 = 0 ∧ bytes_received r.1 = 0 ∧
   video_frames r.1 = 0 ∧ audio_frames r.1 = 0) ∧
  r.2 = [].
Proof.
  destruct (log_stats_resets_counters 5 (started_receiver 4)) as [Hzero Hquiet].
  split; [exact Hzero|]. apply Hquiet. cbn. lia.
Defined.

Lemma parse_header_some_length (data : bytes) (h : Header) :
  parse_header data = Ok (Some h) → (HEADER_SIZE ≤ length data)%nat.
Proof.
  intros H. destruct (decide (length data < HEADER_SIZE)%nat) as [Hs|]; [|lia].
  by rewrite parse_header_short in H.
Qed.

(** C10.  A datagram with a valid header that is shorter than the header
    plus the payload size it declares is not rejected: [process_packet]
    hands the bytes from offset 38 to the end to the reassembler of its
    media type.  The frame the truncated datagram below completes has
    three bytes where ten were declared, and it is written to the decoder
    without any error. *)
Theorem no_length_validation :
  (∀ (w : World) (self : NDIBridgeReceiver) (data : bytes) (h : Header),
     parse_header data = Ok (Some h) →
     (length data < HEADER_SIZE + Z.to_nat (payload_size h))%nat →
     payload_of data h = drop HEADER_SIZE data ∧
     (length (payload_of data h) < Z.to_nat (payload_size h))%nat ∧
     (media_type h = 0 →
        video_reassembler (receiver (process_packet w self data)) =
          after (add_fragment (video_reassembler self) h (drop HEADER_SIZE data))) ∧
     (media_type h = 1 →
        audio_reassembler (receiver (process_packet w self data)) =
          after (add_fragment (audio_reassembler self) h (drop HEADER_SIZE data)))) ∧
  (∃ h, parse_header truncated_datagram = Ok (Some h) ∧
        payload_size h = 10 ∧
        ∀ now, let s := process_packet calm (started_receiver now) truncated_datagram in
               events s = [FfmpegWrite ABC] ∧ status s = Ok tt).
Proof.
  split.
  - intros w self data h Hparse Hshort.
    pose proof (parse_header_some_length _ _ Hparse) as Hlong.
    assert (payload_of data h = drop HEADER_SIZE data) as Hpay.
    { unfold payload_of, slice. apply take_ge. rewrite length_drop. lia. }
    split_and!; [done| rewrite Hpay, length_drop; lia | |].
    + intros Hv. unfold process_packet. rewrite Hparse, Hpay.
      rewrite decide_True by done. cbn. by repeat case_match.
    + intros Ha. unfold process_packet. rewrite Hparse, Hpay.
      rewrite decide_False by lia. rewrite decide_True by done.
      cbn. repeat case_match; try done.
      unfold send_ndi_audio. by repeat case_match.
  - eexists. split; [reflexivity|]. split; [reflexivity|].
    intros now. cbv zeta. split; reflexivity.
Qed.

Lemma no_length_validation_witness :
  payload_of truncated_datagram (wire_header truncated_datagram) = ABC ∧
  fragments (video_reassembler (receiver
    (process_packet calm (set_video (started_receiver 0)
        (after (add_fragment (new_reassembler "video") (video_header 42 1 3) DEF)))
       (datagram x2a x00 x03 x0a ABC)))) = {[0 := ABC; 1 := DEF]}.
Proof.
  pose proof no_length_validation as [Hpass _].
  split.
  - destruct (Hpass calm (started_receiver 0) truncated_datagram
                (wire_header truncated_datagram)) as (Hpay & _).
    + reflexivity.
    + vm_compute. lia.
    + exact Hpay.
  - destruct (Hpass calm
                (set_video (started_receiver 0)
                   (after (add_fragment (new_reassembler "video")
                             (video_header 42 1 3) DEF)))
                (datagram x2a x00 x03 x0a ABC)
                (wire_header (datagram x2a x00 x03 x0a ABC)))
      as (_ & _ & Hvideo & _).
    + reflexivity.
    + vm_compute. lia.
    + rewrite Hvideo by reflexivity. by vm_compute.
Defined.

(** C3, at the input on which the receiver fails.  A well-formed video
    datagram that carries fragment index 1 of 1 makes [add_fragment] look
    up the missing index 0: [process_packet] raises [KeyError], and the
    loop of [run], which handles only the socket timeout and the
    interrupt of the user, lets it through: the receiver stops. *)
Theorem stray_index_stops_the_receiver (w : World) (now last : Q) :
  status (process_packet w (started_receiver now) stray_index_datagram)
    = Raise (KeyError 0) ∧
  ∀ (t1 t2 t3 : Q) (rest : list iteration),
    (receive_loop w (started_receiver now) last
       (mkIteration (Datagram stray_index_datagram) t1 t2 t3 :: rest)).2
      = Uncaught (KeyError 0).
Proof.
  assert (status (process_packet w (started_receiver now) stray_index_datagram)
            = Raise (KeyError 0)) as Hraise by reflexivity.
  split; [done|]. intros t1 t2 t3 rest.
  cbn [receive_loop arrived]. by rewrite Hraise.
Qed.

(** ** What a reassembler holds *)

Lemma add_fragments_snoc (self : FrameReassembler) (tr : list fragment)
    (h : Header) (p : bytes) :
  (add_fragments self (tr ++ [(h, p)])).1 =
    after (add_fragment (add_fragments self tr).1 h p).
Proof. by rewrite add_fragments_app. Qed.

Lemma size_within (m : gmap Z bytes) (n : Z) :
  0 ≤ n → (∀ k, is_Some (m !! k) → 0 ≤ k < n) → Z.of_nat (size m) ≤ n.
Proof.
  intros Hn Hkeys.
  assert (dom m ⊆ list_to_set (C := gset Z) (seqZ 0 n)) as Hsub.
  { intros k Hk%elem_of_dom. apply elem_of_list_to_set, elem_of_seqZ.
    specialize (Hkeys k Hk). lia. }
  apply subseteq_size in Hsub.
  rewrite size_dom, size_list_to_set, length_seqZ in Hsub by apply NoDup_seqZ.
  lia.
Qed.

Lemma stored_belongs_to_current (nm : string) (tr : list fragment) :
  let st := (add_fragments (new_reassembler nm) tr).1 in
  ∀ k q, fragments st !! k = Some q →
    ∃ h, (h, q) ∈ tr ∧ current_sequence st = Some (sequence_number h) ∧
         fragment_index h = k.
Proof.
  induction tr as [|[h p] tr IH] using rev_ind; cbv zeta.
  - intros k q. cbn. by rewrite lookup_empty.
  - rewrite add_fragments_snoc. intros k q.
    destruct (add_fragment_inv (add_fragments (new_reassembler nm) tr).1 h p)
      as [[-> _]|[-> _]]; cbn; [|by rewrite lookup_empty].
    destruct (decide (fragment_index h = k)) as [<-|Hne].
    + rewrite lookup_insert_eq. intros [= <-]. exists h.
      split_and!; [|done..]. apply elem_of_app. right. by left.
    + rewrite lookup_insert_ne by done. unfold stored_before.
      case_decide as Hcur; [|by rewrite lookup_empty].
      intros Hq. destruct (IH k q Hq) as (h' & Hin & Hcur' & Hk).
      exists h'. split_and!; [|congruence|done].
      apply elem_of_app. by left.
Qed.

Lemma consistent_prefix (tr : list fragment) (f : fragment) :
  consistent (tr ++ [f]) →
  consistent tr ∧ 0 ≤ frag_key f < fragment_count f.1 ∧
  ∀ g, g ∈ tr → frag_seq g = frag_seq f → fragment_count g.1 = fragment_count f.1.
Proof.
  intros [Hrange Hagree]. apply Forall_app in Hrange as [Hrange Hf].
  apply Forall_cons in Hf as [Hf _]. split; [|split; [exact Hf|]].
  - split; [done|]. intros g1 g2 H1 H2. apply Hagree; apply elem_of_app; by left.
  - intros g Hg. apply Hagree; apply elem_of_app; [by left|right; by left].
Qed.

Lemma consistent_bounds (nm : string) (tr : list fragment) :
  consistent tr →
  let st := (add_fragments (new_reassembler nm) tr).1 in
  0 ≤ expected_count st ∧
  (∀ k, is_Some (fragments st !! k) → 0 ≤ k < expected_count st) ∧
  (∀ s, current_sequence st = Some s →
     ∃ f, f ∈ tr ∧ frag_seq f = s ∧ fragment_count f.1 = expected_count st).
Proof.
  induction tr as [|[h p] tr IH] using rev_ind; intros Hcons; cbv zeta.
  - cbn. split_and!; [done| |done]. intros k. rewrite lookup_empty. by intros [].
  - apply consistent_prefix in Hcons as (Hcons & Hidx & Hagree).
    destruct (IH Hcons) as (Hpos & Hkeys & Hcur). clear IH.
    cbn in Hidx. rewrite add_fragments_snoc.
    set (st := (add_fragments (new_reassembler nm) tr).1) in *.
    assert (expected_after st (sequence_number h) (fragment_count h)
              = fragment_count h) as He.
    { unfold expected_after. case_decide as Hs; [|done].
      destruct (Hcur _ Hs) as (f & Hf & Hfs & <-). by apply Hagree. }
    destruct (add_fragment_inv st h p) as [[-> _]|[-> _]]; cbn; rewrite He.
    + split_and!; [lia| |].
      * intros k. destruct (decide (fragment_index h = k)) as [<-|Hne]; [done|].
        rewrite lookup_insert_ne by done. unfold stored_before.
        case_decide as Hs; [|rewrite lookup_empty; by intros []].
        intros Hk. specialize (Hkeys k Hk). unfold expected_after in He.
        rewrite decide_True in He by done. lia.
      * intros s [= <-]. exists (h, p). split_and!; [|done..].
        apply elem_of_app. right. by left.
    + split_and!; [lia| |done]. intros k. rewrite lookup_empty. by intros [].
Qed.

(** Against C5 as stated.  A single fragment that announces a count of
    zero stays stored: one entry, recorded count zero. *)
Lemma zero_count_exceeds_expected :
  let st := (add_fragments (new_reassembler "video") [(video_header 7 0 0, ABC)]).1 in
  expected_count st = 0 ∧ size (fragments st) = 1%nat ∧
  ¬ Z.of_nat (size (fragments st)) ≤ expected_count st.
Proof. cbv zeta. split_and!; [reflexivity|reflexivity|by vm_compute]. Qed.

(** C5, as the code has it.  In every state reached from a new
    reassembler, every stored payload was delivered at its index in a
    header that carries the current sequence number.  The dictionary has
    no more entries than the recorded count when the sender is consistent:
    every index lies below the count of its header and the fragments of
    one sequence number announce the same count. *)
Theorem stored_fragments_invariant (nm : string) (tr : list fragment) :
  let st := (add_fragments (new_reassembler nm) tr).1 in
  (∀ k q, fragments st !! k = Some q →
     ∃ h, (h, q) ∈ tr ∧ current_sequence st = Some (sequence_number h) ∧
          fragment_index h = k) ∧
  (consistent tr → Z.of_nat (size (fragments st)) ≤ expected_count st).
Proof.
  cbv zeta. split; [apply stored_belongs_to_current|].
  intros Hcons.
  destruct (consistent_bounds nm tr Hcons) as (Hpos & Hkeys & _).
  by apply size_within.
Qed.

Lemma stored_fragments_invariant_witness :
  let st := (add_fragments (new_reassembler "video")
               [(video_header 7 0 3, ABC); (video_header 7 1 3, DEF)]).1 in
  Z.of_nat (size (fragments st)) ≤ expected_count st.
Proof.
  cbv zeta.
  apply (stored_fragments_invariant "video"
           [(video_header 7 0 3, ABC); (video_header 7 1 3, DEF)]).
  split.
  - repeat constructor; cbn; lia.
  - intros f g Hf Hg _.
    apply elem_of_cons in Hf as [->|Hf]; [|apply list_elem_of_singleton in Hf as ->];
    (apply elem_of_cons in Hg as [->|Hg]; [|apply list_elem_of_singleton in Hg as ->]);
    reflexivity.
Defined.

Lemma idle_exactly_when_empty (nm : string) (tr : list fragment) :
  current_sequence (add_fragments (new_reassembler nm) tr).1 = None ↔
  fragments (add_fragments (new_reassembler nm) tr).1 = ∅.
Proof.
  destruct tr as [|[h p] tr _] using rev_ind; [done|].
  rewrite add_fragments_snoc.
  destruct (add_fragment_inv (add_fragments (new_reassembler nm) tr).1 h p)
    as [[-> _]|[-> _]]; cbn; [|done].
  split; [done|]. intros Hempty. by apply insert_non_empty in Hempty.
Qed.

(** ** The order of emitted frames *)

Lemma emitted_cons (self : FrameReassembler) (h : Header) (p : bytes)
    (rest : list fragment) :
  emitted self ((h, p) :: rest) =
    match returned (add_fragment self h p) with
    | Ok (Some data) =>
        (sequence_number h, data) :: emitted (after (add_fragment self h p)) rest
    | _ => emitted (after (add_fragment self h p)) rest
    end.
Proof. done. Qed.

Lemma emitted_from_trace (self : FrameReassembler) (tr : list fragment) (s : Z) :
  s ∈ (emitted self tr).*1 → s ∈ frag_seq <$> tr.
Proof.
  revert self. induction tr as [|[h p] tr IH]; intros self; [done|].
  rewrite emitted_cons, fmap_cons.
  destruct (returned (add_fragment self h p)) as [[data|]|e];
    rewrite ?fmap_cons, ?elem_of_cons; cbn; intros Hs;
    try (right; by apply (IH _ Hs)).
  destruct Hs as [->|Hs]; [by left|right; by apply (IH _ Hs)].
Qed.

Lemma insert_nonempty (m : gmap Z bytes) (k : Z) (q : bytes) :
  1 ≤ Z.of_nat (size (<[k := q]> m)).
Proof.
  pose proof (map_size_ne_0_lookup_2 (<[k := q]> m) k) as Hne.
  rewrite lookup_insert_eq in Hne. specialize (Hne (ex_intro _ q eq_refl)). lia.
Qed.

(** A frame returned by a call had index 0 stored, by this call or by
    an earlier call of the same sequence. *)
Lemma emission_needs_index_zero (self : FrameReassembler) (h : Header)
    (p data : bytes) :
  returned (add_fragment self h p) = Ok (Some data) →
  fragment_index h = 0 ∨
  (current_sequence self = Some (sequence_number h) ∧
   is_Some (fragments self !! 0)).
Proof.
  intros Hret.
  destruct (add_fragment_inv self h p)
    as [[_ [[Hr _]|(k & Hr & _)]]|(_ & Hsz & d & _ & Hjoin)]; [congruence..|].
  pose proof (insert_nonempty (stored_before self (sequence_number h))
                (fragment_index h) p) as Hpos.
  assert (0 ∈ seqZ 0 (fragment_count h)) as H0 by (apply elem_of_seqZ; lia).
  pose proof (join_fragments_present _ _ _ Hjoin 0 H0) as Hzero.
  destruct (decide (fragment_index h = 0)) as [|Hne]; [by left|right].
  rewrite lookup_insert_ne in Hzero by done. unfold stored_before in Hzero.
  case_decide; [done|]. rewrite lookup_empty in Hzero. by destruct Hzero.
Qed.

(** What is stored after a call was stored before it for the same
    sequence, or is the index of this call. *)
Lemma stored_after_call (self : FrameReassembler) (h : Header) (p : bytes)
    (s k : Z) :
  current_sequence (after (add_fragment self h p)) = Some s →
  is_Some (fragments (after (add_fragment self h p)) !! k) →
  s = sequence_number h ∧
  (k = fragment_index h ∨
   (current_sequence self = Some s ∧ is_Some (fragments self !! k))).
Proof.
  destruct (add_fragment_inv self h p) as [[-> _]|[-> _]]; cbn; [|done].
  intros [= <-] Hk. split; [done|].
  destruct (decide (fragment_index h = k)) as [|Hne]; [by left|right].
  rewrite lookup_insert_ne in Hk by done. unfold stored_before in Hk.
  case_decide; [done|]. rewrite lookup_empty in Hk. by destruct Hk.
Qed.

Lemma emitted_above (S : Z) (self : FrameReassembler) (tr : list fragment) :
  Forall (fun f => S ≤ frag_seq f) tr →
  (S, 0) ∉ frag_pair <$> tr →
  (current_sequence self = Some S → fragments self !! 0 = None) →
  Forall (Z.lt S) (emitted self tr).*1.
Proof.
  revert self. induction tr as [|[h p] tr IH]; intros self Hge Hpair Hzero.
  { constructor. }
  apply Forall_cons in Hge as [Hh Hge]. unfold frag_seq in Hh. cbn in Hh.
  rewrite fmap_cons, not_elem_of_cons in Hpair. destruct Hpair as [Hhp Hpair].
  assert (current_sequence (after (add_fragment self h p)) = Some S →
          fragments (after (add_fragment self h p)) !! 0 = None) as Hzero'.
  { intros Hcur. apply eq_None_not_Some. intros Hk.
    destruct (stored_after_call _ _ _ _ _ Hcur Hk) as [-> [Hidx|[Hc Hs]]].
    - apply Hhp. unfold frag_pair, frag_seq, frag_key. cbn. by rewrite <-Hidx.
    - rewrite Hzero in Hs by done. by destruct Hs. }
  rewrite emitted_cons.
  destruct (returned (add_fragment self h p)) as [[data|]|e] eqn:Hret;
    [|by apply IH..].
  rewrite fmap_cons. apply Forall_cons. split; [|by apply IH].
  cbn. destruct (decide (S = sequence_number h)) as [->|]; [|lia].
  exfalso. destruct (emission_needs_index_zero _ _ _ _ Hret) as [Hidx|[Hc Hs]].
  - apply Hhp. unfold frag_pair, frag_seq, frag_key. cbn. by rewrite Hidx.
  - rewrite Hzero in Hs by done. by destruct Hs.
Qed.

Lemma emitted_strictly_sorted (self : FrameReassembler) (tr : list fragment) :
  StronglySorted Z.le (frag_seq <$> tr) →
  NoDup (frag_pair <$> tr) →
  (∀ s k, current_sequence self = Some s → is_Some (fragments self !! k) →
          (s, k) ∉ frag_pair <$> tr) →
  StronglySorted Z.lt (emitted self tr).*1.
Proof.
  revert self. induction tr as [|[h p] tr IH]; intros self Hsorted Hnd Hold.
  { constructor. }
  rewrite fmap_cons in Hsorted. rewrite fmap_cons in Hnd.
  apply StronglySorted_cons in Hsorted as [Hle Hsorted].
  apply NoDup_cons in Hnd as [Hhp Hnd].
  assert (∀ s k, current_sequence (after (add_fragment self h p)) = Some s →
                 is_Some (fragments (after (add_fragment self h p)) !! k) →
                 (s, k) ∉ frag_pair <$> tr) as Hold'.
  { intros s k Hcur Hk.
    destruct (stored_after_call _ _ _ _ _ Hcur Hk) as [-> [->|[Hc Hs]]]; [done|].
    specialize (Hold _ _ Hc Hs). rewrite fmap_cons, not_elem_of_cons in Hold.
    by destruct Hold. }
  rewrite emitted_cons.
  destruct (returned (add_fragment self h p)) as [[data|]|e] eqn:Hret;
    [|by apply IH..].
  rewrite fmap_cons. apply StronglySorted_cons. split; [|by apply IH].
  cbn. apply emitted_above.
  - exact (proj1 (Forall_fmap frag_seq (Z.le (frag_seq (h, p))) tr) Hle).
  - destruct (emission_needs_index_zero _ _ _ _ Hret) as [Hidx|[Hc Hs]].
    + unfold frag_pair, frag_seq, frag_key in Hhp. cbn in Hhp. by rewrite Hidx in Hhp.
    + specialize (Hold _ _ Hc Hs). rewrite fmap_cons, not_elem_of_cons in Hold.
      by destruct Hold.
  - intros Hcur. apply eq_None_not_Some. intros Hk.
    by destruct (add_fragment_inv self h p)
      as [[_ [[Hr _]|(k & Hr & _)]]|(Haft & _)];
      [congruence..|rewrite Haft in Hk; cbn in Hk; rewrite lookup_empty in Hk;
                    destruct Hk].
Qed.

Lemma current_from_trace (nm : string) (tr : list fragment) (s : Z) :
  current_sequence (add_fragments (new_reassembler nm) tr).1 = Some s →
  s ∈ frag_seq <$> tr.
Proof.
  destruct tr as [|[h p] tr _] using rev_ind; [done|].
  rewrite add_fragments_snoc.
  destruct (add_fragment_inv (add_fragments (new_reassembler nm) tr).1 h p)
    as [[-> _]|[-> _]]; cbn; [|done].
  intros [= <-]. rewrite fmap_app. apply elem_of_app. right. by left.
Qed.

(** Against C2 as stated.  Sequence 1 is left incomplete when sequence 2
    arrives and completes; then a fragment of sequence 1 arrives again
    and completes as well.  The frames come out as 2, then 1. *)
Lemma frames_can_go_back :
  let tr := [(video_header 1 0 2, ABC); (video_header 2 0 1, DEF);
             (video_header 1 0 1, ABC)] in
  emitted (new_reassembler "video") tr = [(2, DEF); (1, ABC)] ∧
  ¬ StronglySorted Z.lt (emitted (new_reassembler "video") tr).*1.
Proof.
  cbv zeta. split; [reflexivity|].
  change (¬ StronglySorted Z.lt [2; 1]).
  intros [Hlt _]%StronglySorted_cons. apply Forall_cons in Hlt as [Hlt _]. lia.
Qed.

(** A returned frame had every index below the count of the completing
    header stored, by this call or by an earlier one of the same
    sequence. *)
Lemma emission_needs_index (self : FrameReassembler) (h : Header)
    (p data : bytes) (k : Z) :
  returned (add_fragment self h p) = Ok (Some data) →
  0 ≤ k < fragment_count h →
  fragment_index h = k ∨
  (current_sequence self = Some (sequence_number h) ∧
   is_Some (fragments self !! k)).
Proof.
  intros Hret Hk.
  destruct (add_fragment_inv self h p)
    as [[_ [[Hr _]|(j & Hr & _)]]|(_ & Hsz & d & _ & Hjoin)]; [congruence..|].
  assert (k ∈ seqZ 0 (fragment_count h)) as Hin by (apply elem_of_seqZ; lia).
  pose proof (join_fragments_present _ _ _ Hjoin k Hin) as Hstored.
  destruct (decide (fragment_index h = k)) as [|Hne]; [by left|right].
  rewrite lookup_insert_ne in Hstored by done. unfold stored_before in Hstored.
  case_decide; [done|]. rewrite lookup_empty in Hstored. by destruct Hstored.
Qed.

(** No frame of sequence [S] comes out of a trace that never delivers
    index [k] of [S], when [k] is not stored for [S] at the start and
    every header of [S] in the trace announces more than [k] fragments. *)
Lemma emitted_without_index (S k : Z) (self : FrameReassembler)
    (tr : list fragment) :
  (S, k) ∉ frag_pair <$> tr →
  (current_sequence self = Some S → fragments self !! k = None) →
  Forall (fun f => frag_seq f = S → 0 ≤ k < fragment_count f.1) tr →
  S ∉ (emitted self tr).*1.
Proof.
  revert self. induction tr as [|[h p] tr IH]; intros self Hpair Hfree Hcount.
  { cbn. apply not_elem_of_nil. }
  rewrite fmap_cons, not_elem_of_cons in Hpair. destruct Hpair as [Hhp Hpair].
  apply Forall_cons in Hcount as [Hh Hcount]. unfold frag_seq in Hh. cbn in Hh.
  assert (current_sequence (after (add_fragment self h p)) = Some S →
          fragments (after (add_fragment self h p)) !! k = None) as Hfree'.
  { intros Hcur. apply eq_None_not_Some. intros Hk.
    destruct (stored_after_call _ _ _ _ _ Hcur Hk) as [-> [Hidx|[Hc Hs]]].
    - apply Hhp. unfold frag_pair, frag_seq, frag_key. cbn. by rewrite <-Hidx.
    - rewrite Hfree in Hs by done. by destruct Hs. }
  rewrite emitted_cons.
  destruct (returned (add_fragment self h p)) as [[data|]|e] eqn:Hret;
    [|by apply IH..].
  rewrite fmap_cons, not_elem_of_cons. split; [|by apply IH].
  cbn. intros ->.
  destruct (emission_needs_index _ _ _ _ k Hret (Hh eq_refl)) as [Hidx|[Hc Hs]].
  - apply Hhp. unfold frag_pair, frag_seq, frag_key. cbn. by rewrite Hidx.
  - rewrite Hfree in Hs by done. by destruct Hs.
Qed.

(** C2, as the code has it.  The reassembler compares sequence numbers for
    equality only, so the order of the frames is the order in which their
    fragments complete.  Take a trace of calls on a new reassembler in
    which no pair of sequence number and index arrives twice.  If the
    fragments arrive with non-decreasing sequence numbers, the sequence
    numbers of the emitted frames are strictly increasing.  And, in
    whatever order they arrive, if the sender is consistent (every index
    below the count of its header, one count per sequence number), then
    once a fragment of another sequence number has superseded the
    sequence that was current, no frame with the older number is emitted
    afterwards: the reset has discarded fragments that do not come
    again. *)
Theorem emission_order (nm : string) (tr : list fragment) :
  NoDup (frag_pair <$> tr) →
  (StronglySorted Z.le (frag_seq <$> tr) →
     StronglySorted Z.lt (emitted (new_reassembler nm) tr).*1) ∧
  (consistent tr →
     ∀ tr1 f tr2 old,
       tr = tr1 ++ f :: tr2 →
       current_sequence (add_fragments (new_reassembler nm) tr1).1 = Some old →
       old ≠ frag_seq f →
       old ∉ (emitted (add_fragments (new_reassembler nm) tr1).1 (f :: tr2)).*1).
Proof.
  intros Hnd. split.
  - intros Hsorted.
    apply emitted_strictly_sorted; [done..|]. intros s k. cbn. discriminate.
  - intros [Hrange Hagree] tr1 [h p] tr2 old -> Hcur Hne.
    set (st := (add_fragments (new_reassembler nm) tr1).1) in *.
    (* an index of the old sequence is stored when it is superseded *)
    assert (∃ k q, fragments st !! k = Some q) as (k & q & Hkq).
    { destruct (map_choose_or_empty (fragments st)) as [(k & q & Hkq)|Hempty];
        [by exists k, q|].
      apply idle_exactly_when_empty in Hempty. subst st. congruence. }
    destruct (stored_belongs_to_current nm tr1 k q Hkq) as (h0 & Hin & Hcur0 & Hk0).
    assert (sequence_number h0 = old) as Hseq0 by (subst st; congruence).
    assert ((h0, q) ∈ tr1 ++ (h, p) :: tr2) as Hin0 by (apply elem_of_app; by left).
    assert (0 ≤ k < fragment_count h0) as Hk.
    { rewrite Forall_forall in Hrange. specialize (Hrange _ Hin0).
      unfold frag_key in Hrange. cbn in Hrange. by rewrite Hk0 in Hrange. }
    (* it does not come again *)
    rewrite fmap_app in Hnd. apply NoDup_app in Hnd as (_ & Hdisj & _).
    assert ((old, k) ∉ frag_pair <$> (h, p) :: tr2) as Hfresh.
    { apply Hdisj. apply (list_elem_of_fmap_2' frag_pair _ (h0, q)); [done|].
      unfold frag_pair, frag_seq, frag_key. cbn. by rewrite Hseq0, Hk0. }
    rewrite fmap_cons, not_elem_of_cons in Hfresh. destruct Hfresh as [_ Hfresh].
    (* the superseding call emits at most a frame of its own sequence *)
    unfold frag_seq in Hne. cbn in Hne.
    assert (old ∉ (emitted (after (add_fragment st h p)) tr2).*1) as Hrest.
    { apply (emitted_without_index old k); [done| |].
      - intros Hc. exfalso.
        by destruct (add_fragment_inv st h p) as [[Ha _]|[Ha _]];
          rewrite Ha in Hc; cbn in Hc; congruence.
      - apply Forall_forall. intros g Hg Hgs.
        rewrite <-(Hagree (h0, q) g); [done|done| |].
        + apply elem_of_app. right. by right.
        + unfold frag_seq in Hgs |- *. cbn. congruence. }
    rewrite emitted_cons.
    destruct (returned (add_fragment st h p)) as [[data|]|e]; [|done..].
    rewrite fmap_cons, not_elem_of_cons. by split.
Qed.

Lemma emission_order_witness :
  StronglySorted Z.lt
    (emitted (new_reassembler "video")
       [(video_header 1 0 2, ABC); (video_header 2 0 1, DEF);
        (video_header 3 0 1, ABC)]).*1 ∧
  1 ∉ (emitted (add_fragments (new_reassembler "video")
                  [(video_header 1 0 2, ABC)]).1
         [(video_header 2 0 1, DEF); (video_header 1 1 2, ABC)]).*1.
Proof.
  split.
  - apply (emission_order "video"
             [(video_header 1 0 2, ABC); (video_header 2 0 1, DEF);
              (video_header 3 0 1, ABC)]).
    + apply (bool_decide_unpack _). vm_compute. exact I.
    + cbn. repeat constructor; lia.
  - assert (consistent [(video_header 1 0 2, ABC); (video_header 2 0 1, DEF);
                        (video_header 1 1 2, ABC)]) as Hcons.
    { split.
      - repeat constructor; cbn; lia.
      - intros f g Hf Hg Heq.
        rewrite !elem_of_cons, elem_of_nil in Hf, Hg.
        destruct Hf as [->|[->|[->|[]]]]; destruct Hg as [->|[->|[->|[]]]];
          first [reflexivity | discriminate Heq]. }
    destruct (emission_order "video"
                [(video_header 1 0 2, ABC); (video_header 2 0 1, DEF);
                 (video_header 1 1 2, ABC)]) as [_ Hold].
    + apply (bool_decide_unpack _). vm_compute. exact I.
    + apply (Hold Hcons [(video_header 1 0 2, ABC)] (video_header 2 0 1, DEF)
               [(video_header 1 1 2, ABC)] 1 eq_refl eq_refl).
      cbn. lia.
Defined.

(** * Further properties of the reassembler *)

Lemma add_fragment_printed (self : FrameReassembler) (h : Header) (p : bytes) :
  printed (add_fragment self h p) =
    (begin_sequence self (sequence_number h) (fragment_count h)).2.
Proof.
  unfold add_fragment. destruct (begin_sequence _ _ _) as [s o]. cbn.
  by destruct (store_fragment _ _ _ _).
Qed.

Lemma name_is_kept (nm : string) (tr : list fragment) :
  name (add_fragments (new_reassembler nm) tr).1 = nm.
Proof.
  induction tr as [|[h p] tr IH] using rev_ind; [done|].
  rewrite add_fragments_snoc.
  by destruct (add_fragment_inv (add_fragments (new_reassembler nm) tr).1 h p)
    as [[-> _]|[-> _]].
Qed.

(** X1.  A reassembler fed from its creation is idle (no current sequence)
    exactly when its dictionary is empty: fragments are held only for a
    current sequence, and a current sequence always holds at least one. *)
Theorem idle_iff_nothing_stored (nm : string) (tr : list fragment) :
  let st := (add_fragments (new_reassembler nm) tr).1 in
  (current_sequence st = None ↔ fragments st = ∅) ∧
  (∀ s, current_sequence st = Some s → (0 < size (fragments st))%nat).
Proof.
  cbv zeta. split; [apply idle_exactly_when_empty|].
  intros s Hs.
  destruct (decide (size (fragments (add_fragments (new_reassembler nm) tr).1) = 0%nat))
    as [Hz|]; [|lia].
  apply map_size_empty_inv, idle_exactly_when_empty in Hz. congruence.
Qed.

Lemma idle_iff_nothing_stored_witness :
  (0 < size (fragments (add_fragments (new_reassembler "video")
                          [(video_header 7 1 3, ABC)]).1))%nat.
Proof.
  apply (proj2 (idle_iff_nothing_stored "video" [(video_header 7 1 3, ABC)]) 7).
  reflexivity.
Defined.

Lemma join_range_raise (m : gmap Z bytes) (len : nat) (a : Z) (e : exn) :
  join_fragments m (seqZ a (Z.of_nat len)) = Raise e ↔
  ∃ k, e = KeyError k ∧ a ≤ k < a + Z.of_nat len ∧ m !! k = None ∧
       ∀ j, a ≤ j < k → is_Some (m !! j).
Proof.
  revert a e. induction len as [|len IH]; intros a e.
  - cbn. split; [done|]. intros (k & _ & Hk & _). lia.
  - rewrite seqZ_cons by lia. cbn [join_fragments].
    replace (Z.pred (Z.of_nat (S len))) with (Z.of_nat len) by lia.
    destruct (m !! a) as [q|] eqn:Ha.
    + destruct (join_fragments m (seqZ (Z.succ a) (Z.of_nat len))) as [d|e'] eqn:Hj.
      * cbn. split; [done|]. intros (k & -> & Hk & Hnone & Hbelow).
        assert (join_fragments m (seqZ (Z.succ a) (Z.of_nat len))
                  = Raise (KeyError k)) as Hr; [|congruence].
        apply IH. exists k. split_and!; [done| | |done|].
        -- destruct (decide (k = a)) as [->|]; [congruence|lia].
        -- lia.
        -- intros j Hj'. apply Hbelow. lia.
      * cbn. apply IH in Hj as (k & -> & Hk & Hnone & Hbelow). split.
        -- intros [= <-]. exists k. split_and!; [done|lia|lia|done|].
           intros j Hj'. destruct (decide (j = a)) as [->|]; [by rewrite Ha|].
           apply Hbelow. lia.
        -- intros (k' & -> & Hk' & Hnone' & Hbelow'). f_equal. f_equal.
           destruct (Z.lt_trichotomy k k') as [Hlt|[->|Hgt]]; [|done|].
           ++ destruct (Hbelow' k) as [? ?]; [|congruence].
              destruct (decide (k = a)); lia.
           ++ destruct (decide (k' = a)) as [->|]; [congruence|].
              destruct (Hbelow k') as [? ?]; [lia|congruence].
    + split.
      * intros [= <-]. exists a. split_and!; [done|lia|lia|done|]. intros j Hj. lia.
      * intros (k & -> & Hk & Hnone & Hbelow). f_equal. f_equal.
        destruct (decide (k = a)) as [|Hne]; [done|].
        destruct (Hbelow a) as [? ?]; [lia|congruence].
Qed.

(** X2.  [add_fragment] raises only [KeyError], and exactly when, after
    the payload is stored, the number of stored indices equals the count
    of the header while some index below the count is missing; the key of
    the error is the smallest missing index.  The object is then left
    collecting: the payload stays stored and the sequence stays current. *)
Theorem add_fragment_raises_exactly (self : FrameReassembler) (h : Header)
    (p : bytes) (e : exn) :
  let m := <[fragment_index h := p]> (stored_before self (sequence_number h)) in
  let c := add_fragment self h p in
  (returned c = Raise e ↔
     Z.of_nat (size m) = fragment_count h ∧
     ∃ k, e = KeyError k ∧ 0 ≤ k < fragment_count h ∧ m !! k = None ∧
          ∀ j, 0 ≤ j < k → is_Some (m !! j)) ∧
  (returned c = Raise e →
     fragments (after c) = m ∧
     current_sequence (after c) = Some (sequence_number h)).
Proof.
  intros m c. subst c.
  rewrite add_fragment_returned, add_fragment_after, begin_sequence_fst.
  unfold store_fragment. cbn. fold m.
  destruct (decide (Z.of_nat (size m) = fragment_count h)) as [Hsz|Hsz]; cbn.
  - pose proof (join_range_raise m (size m) 0 e) as Hjoin.
    rewrite Hsz, Z.add_0_l in Hjoin.
    destruct (join_fragments m (seqZ 0 (fragment_count h))) as [d|e'] eqn:Hj; cbn.
    + split; [|intros [=]]. split; [intros [=]|]. intros [_ Hk].
      by apply Hjoin in Hk.
    + split; [|done]. split.
      * intros [= ->]. split; [done|]. by apply (proj1 Hjoin).
      * intros [_ Hk]. apply (proj2 Hjoin) in Hk. by injection Hk as ->.
  - split; [|intros [=]]. split; [intros [=]|]. by intros [? _].
Qed.

Lemma add_fragment_raises_exactly_witness :
  returned (add_fragment (new_reassembler "video") (video_header 0 1 1) [])
    = Raise (KeyError 0).
Proof.
  apply (proj1 (add_fragment_raises_exactly (new_reassembler "video")
                  (video_header 0 1 1) [] (KeyError 0))).
  split; [by vm_compute|]. exists 0.
  split_and!; [done|lia|cbn; lia|by vm_compute|]. intros j Hj. lia.
Defined.

(** X3.  A header that announces a count of zero (or less) never completes
    a frame: the payload is stored, the sequence is current, and the call
    returns [None]. *)
Theorem nonpositive_count_never_completes (self : FrameReassembler) (h : Header)
    (p : bytes) :
  fragment_count h ≤ 0 →
  let c := add_fragment self h p in
  returned c = Ok None ∧
  fragments (after c) !! fragment_index h = Some p ∧
  current_sequence (after c) = Some (sequence_number h).
Proof.
  intros Hn c. subst c.
  pose proof (insert_nonempty (stored_before self (sequence_number h))
                (fragment_index h) p) as Hpos.
  destruct (add_fragment_inv self h p)
    as [[-> [[-> _]|(k & _ & Hsz & _)]]|(_ & Hsz & _)]; [|lia..].
  cbn. by rewrite lookup_insert_eq.
Qed.

Lemma nonpositive_count_never_completes_witness :
  returned (add_fragment (new_reassembler "video") (video_header 7 0 0) ABC)
    = Ok None.
Proof.
  apply (nonpositive_count_never_completes (new_reassembler "video")
           (video_header 7 0 0) ABC).
  cbn. lia.
Defined.

Lemma join_fragments_parts (m : gmap Z bytes) (idxs : list Z) (data : bytes) :
  join_fragments m idxs = Ok data →
  ∃ ps, data = mjoin ps ∧ Forall2 (fun i q => m !! i = Some q) idxs ps.
Proof.
  revert data. induction idxs as [|i idxs IH]; intros data.
  - intros [= <-]. exists []. split; [done|constructor].
  - cbn [join_fragments]. destruct (m !! i) as [q|] eqn:Hi; [|done].
    destruct (join_fragments m idxs) as [d|] eqn:Hj; [|done].
    intros [= <-]. destruct (IH d eq_refl) as (ps & -> & Hall).
    exists (q :: ps). split; [done|]. by constructor.
Qed.

(** X4.  Frames never mix sequences.  When a call on a reassembler fed
    from its creation returns a frame, the frame is the concatenation, in
    index order 0 .. count-1, of payloads that were each delivered (by
    this call or an earlier one) at that index in a header carrying the
    sequence number of the completing call. *)
Theorem frames_do_not_mix_sequences (nm : string) (tr : list fragment)
    (h : Header) (p data : bytes) :
  returned (add_fragment (add_fragments (new_reassembler nm) tr).1 h p)
    = Ok (Some data) →
  ∃ ps, data = mjoin ps ∧
        Forall2 (fun i q => ∃ h', (h', q) ∈ tr ++ [(h, p)] ∧
                              sequence_number h' = sequence_number h ∧
                              fragment_index h' = i)
                (seqZ 0 (fragment_count h)) ps.
Proof.
  intros Hret.
  set (st := (add_fragments (new_reassembler nm) tr).1) in *.
  destruct (add_fragment_inv st h p)
    as [[_ [[Hr _]|(k & Hr & _)]]|(_ & _ & d & Hr & Hjoin)]; [congruence..|].
  assert (d = data) as -> by congruence.
  destruct (join_fragments_parts _ _ _ Hjoin) as (ps & -> & Hall).
  exists ps. split; [done|].
  eapply Forall2_impl; [exact Hall|]. intros i q Hq. cbn beta in Hq.
  destruct (decide (fragment_index h = i)) as [<-|Hne].
  - rewrite lookup_insert_eq in Hq. injection Hq as <-.
    exists h. split_and!; [|done..]. apply elem_of_app. right. by left.
  - rewrite lookup_insert_ne in Hq by done. unfold stored_before in Hq.
    case_decide as Hcur; [|by rewrite lookup_empty in Hq].
    destruct (stored_belongs_to_current nm tr i q Hq) as (h' & Hin & Hcur' & Hk).
    subst st. exists h'. split_and!; [|congruence|done]. apply elem_of_app. by left.
Qed.

Lemma frames_do_not_mix_sequences_witness :
  ∃ ps, ABC ++ DEF = mjoin ps ∧
        Forall2 (fun i q => ∃ h', (h', q) ∈ [(video_header 7 1 2, DEF)]
                                    ++ [(video_header 7 0 2, ABC)] ∧
                              sequence_number h' = 7 ∧ fragment_index h' = i)
                (seqZ 0 2) ps.
Proof.
  apply (frames_do_not_mix_sequences "video" [(video_header 7 1 2, DEF)]
           (video_header 7 0 2) ABC (ABC ++ DEF)).
  reflexivity.
Defined.

(** X5.  On a reassembler fed from its creation, a header whose sequence
    number differs from the current one prints exactly one line, which
    names the reassembler and the sequence that is abandoned; a header of
    the current sequence, or one that arrives while the reassembler is
    idle, prints nothing. *)
Theorem dropped_sequence_is_reported (nm : string) (tr : list fragment)
    (h : Header) (p : bytes) :
  let st := (add_fragments (new_reassembler nm) tr).1 in
  printed (add_fragment st h p) =
    match current_sequence st with
    | Some old =>
        if decide (old = sequence_number h) then []
        else [IncompleteFrameDropped nm old]
    | None => []
    end.
Proof.
  cbv zeta. rewrite add_fragment_printed. unfold begin_sequence.
  pose proof (idle_exactly_when_empty nm tr) as Hidle.
  rewrite name_is_kept.
  destruct (current_sequence (add_fragments (new_reassembler nm) tr).1)
    as [old|] eqn:Hcur.
  - destruct (decide (old = sequence_number h)) as [->|Hne].
    + by rewrite decide_False by (by intros []).
    + rewrite decide_True by congruence. rewrite decide_True; [done|].
      destruct (decide (size (fragments (add_fragments (new_reassembler nm) tr).1)
                          = 0%nat)) as [Hz|]; [|lia].
      apply map_size_empty_inv, Hidle in Hz. congruence.
  - by rewrite decide_True.
Qed.

(** X6.  Completion forgets the sequence.  After a call that returned a
    frame, the reassembler answers every further call as a new one would:
    a fragment of the sequence just completed starts a collection of its
    own. *)
Theorem completion_forgets (self : FrameReassembler) (h : Header) (p data : bytes) :
  returned (add_fragment self h p) = Ok (Some data) →
  ∀ h' p',
    let c := add_fragment (after (add_fragment self h p)) h' p' in
    let c0 := add_fragment (new_reassembler (name self)) h' p' in
    returned c = returned c0 ∧ fragments (after c) = fragments (after c0) ∧
    current_sequence (after c) = current_sequence (after c0).
Proof.
  intros Hret h' p'.
  destruct (add_fragment_inv self h p)
    as [[_ [[Hr _]|(k & Hr & _)]]|(-> & _)]; [congruence..|].
  cbv zeta. rewrite !add_fragment_returned, !add_fragment_after.
  by rewrite !begin_sequence_fst.
Qed.

Lemma completion_forgets_witness :
  returned (add_fragment
              (after (add_fragment (new_reassembler "video") (video_header 7 0 1) ABC))
              (video_header 7 0 1) ABC)
    = Ok (Some ABC).
Proof.
  destruct (completion_forgets (new_reassembler "video") (video_header 7 0 1)
              ABC ABC eq_refl (video_header 7 0 1) ABC) as (-> & _).
  reflexivity.
Defined.

(** * Further properties of the parser *)

Lemma byte_val_range (b : Byte.byte) : 0 ≤ byte_val b < 256.
Proof. unfold byte_val. pose proof (Byte.to_N_bounded b). lia. Qed.

Lemma byte_at_range (data : bytes) (i : nat) : 0 ≤ byte_at data i < 256.
Proof.
  unfold byte_at. destruct (data !! i) as [b|]; cbn; [apply byte_val_range|lia].
Qed.

Lemma wire_field_range (data : bytes) (off width : nat) :
  0 ≤ wire_field data off width < 256 ^ Z.of_nat width.
Proof.
  unfold wire_field. induction width as [|width IH]; [cbn; lia|].
  rewrite seq_S, foldl_app. cbn [foldl Nat.add].
  pose proof (byte_at_range data (off + width)) as Hb.
  rewrite Nat2Z.inj_succ, Z.pow_succ_r by lia. lia.
Qed.

Lemma wire_field_range_1 (data : bytes) (off : nat) :
  0 ≤ wire_field data off 1 < 2 ^ 8.
Proof. exact (wire_field_range data off 1). Qed.

Lemma wire_field_range_2 (data : bytes) (off : nat) :
  0 ≤ wire_field data off 2 < 2 ^ 16.
Proof. exact (wire_field_range data off 2). Qed.

Lemma wire_field_range_4 (data : bytes) (off : nat) :
  0 ≤ wire_field data off 4 < 2 ^ 32.
Proof. exact (wire_field_range data off 4). Qed.

Lemma wire_field_range_8 (data : bytes) (off : nat) :
  0 ≤ wire_field data off 8 < 2 ^ 64.
Proof. exact (wire_field_range data off 8). Qed.

(** X7.  Every field of a parsed header lies within the width it has on
    the wire: one byte below 2^8, two bytes below 2^16, four below 2^32,
    eight below 2^64; the magic is the constant, and [is_keyframe] is the
    lowest bit of [flags]. *)
Theorem parsed_fields_are_bounded (data : bytes) (h : Header) :
  parse_header data = Ok (Some h) →
  magic h = MAGIC ∧
  (0 ≤ version h < 2 ^ 8 ∧ 0 ≤ media_type h < 2 ^ 8 ∧
   0 ≤ source_id h < 2 ^ 8 ∧ 0 ≤ flags h < 2 ^ 8 ∧ 0 ≤ channels h < 2 ^ 8) ∧
  (0 ≤ fragment_index h < 2 ^ 16 ∧ 0 ≤ fragment_count h < 2 ^ 16 ∧
   0 ≤ payload_size h < 2 ^ 16) ∧
  (0 ≤ sequence_number h < 2 ^ 32 ∧ 0 ≤ total_size h < 2 ^ 32 ∧
   0 ≤ sample_rate h < 2 ^ 32) ∧
  0 ≤ timestamp h < 2 ^ 64 ∧
  is_keyframe h = Z.odd (flags h).
Proof.
  intros Hparse.
  pose proof (parse_header_some_length _ _ Hparse) as Hlen.
  rewrite parse_header_long in Hparse by done.
  destruct (decide (wire_field data 0 4 ≠ MAGIC)) as [|Hmagic]; [done|].
  injection Hparse as <-.
  cbn [magic version media_type source_id flags channels fragment_index
       fragment_count payload_size sequence_number total_size sample_rate
       timestamp is_keyframe wire_header].
  pose proof (fun off => wire_field_range_1 data off) as R1.
  pose proof (fun off => wire_field_range_2 data off) as R2.
  pose proof (fun off => wire_field_range_4 data off) as R4.
  pose proof (fun off => wire_field_range_8 data off) as R8.
  split; [by destruct (decide (wire_field data 0 4 = MAGIC))|].
  split; [repeat split; apply R1|].
  split; [repeat split; apply R2|].
  split; [repeat split; apply R4|].
  split; [apply R8|apply Z.bit0_odd].
Qed.

Lemma parsed_fields_are_bounded_witness :
  0 ≤ payload_size (wire_header truncated_datagram) < 2 ^ 16.
Proof.
  destruct (parsed_fields_are_bounded truncated_datagram
              (wire_header truncated_datagram) eq_refl)
    as (_ & _ & (_ & _ & Hsize) & _).
  exact Hsize.
Defined.

Lemma wire_field_prefix (d1 d2 : bytes) (n off width : nat) :
  take n d1 = take n d2 → (off + width ≤ n)%nat →
  wire_field d1 off width = wire_field d2 off width.
Proof.
  intros Heq Hle. unfold wire_field.
  induction width as [|width IH]; [done|].
  rewrite !seq_S, !foldl_app. cbn [foldl Nat.add]. rewrite IH by lia.
  f_equal. unfold byte_at.
  rewrite <-(lookup_take_lt d1 n), <-(lookup_take_lt d2 n) by lia.
  by rewrite Heq.
Qed.

Lemma header_prefix (d1 d2 : bytes) :
  (HEADER_SIZE ≤ length d1)%nat → (HEADER_SIZE ≤ length d2)%nat →
  take 35 d1 = take 35 d2 →
  parse_header d1 = parse_header d2.
Proof.
  intros H1 H2 Heq. rewrite !parse_header_long by done.
  assert (∀ off width, (off + width ≤ 35)%nat →
            wire_field d1 off width = wire_field d2 off width) as Hf.
  { intros off width Hle. by apply (wire_field_prefix d1 d2 35). }
  unfold wire_header.
  rewrite (Hf 0 4)%nat, (Hf 4 1)%nat, (Hf 5 1)%nat, (Hf 6 1)%nat, (Hf 7 1)%nat,
    (Hf 8 4)%nat, (Hf 12 8)%nat, (Hf 20 4)%nat, (Hf 24 2)%nat, (Hf 26 2)%nat,
    (Hf 28 2)%nat, (Hf 30 4)%nat, (Hf 34 1)%nat by (cbn; lia).
  done.
Qed.

(** X8.  The header is read from the first 35 bytes only: two datagrams of
    at least 38 bytes that agree on their first 35 bytes parse alike,
    whatever their padding bytes 35 to 37 and their payloads are. *)
Theorem header_is_in_first_35_bytes (d1 d2 : bytes) :
  (HEADER_SIZE ≤ length d1)%nat → (HEADER_SIZE ≤ length d2)%nat →
  take 35 d1 = take 35 d2 →
  parse_header d1 = parse_header d2.
Proof. apply header_prefix. Qed.

Lemma header_is_in_first_35_bytes_witness :
  parse_header (datagram x2a x00 x01 x0a ABC)
    = parse_header (datagram x2a x00 x01 x0a DEF).
Proof.
  apply header_is_in_first_35_bytes.
  - vm_compute. lia.
  - vm_compute. lia.
  - reflexivity.
Defined.

(** * Further properties of [process_packet] *)

Lemma raises_only_key_error (self : FrameReassembler) (h : Header)
    (p : bytes) (e : exn) :
  returned (add_fragment self h p) = Raise e → ∃ k, e = KeyError k.
Proof.
  intros Hret.
  destruct (add_fragment_inv self h p)
    as [[_ [[Hr _]|(k & Hr & _)]]|(_ & _ & d & Hr & _)]; [congruence| |congruence].
  exists k. congruence.
Qed.


Lemma process_packet_unparsed (w : World) (self : NDIBridgeReceiver) (data : bytes) :
  parse_header data = Ok None →
  process_packet w self data = mkStep self [] (Ok tt).
Proof. intros H. unfold process_packet. by rewrite H. Qed.

(** X9.  A datagram that is shorter than 38 bytes or does not start with
    the magic leaves the receiver exactly as it was: no counter moves, no
    reassembler changes, nothing is printed or forwarded, nothing is
    raised. *)
Theorem malformed_packet_is_ignored (w : World) (self : NDIBridgeReceiver)
    (data : bytes) :
  (length data < HEADER_SIZE)%nat ∨ wire_field data 0 4 ≠ MAGIC →
  process_packet w self data = mkStep self [] (Ok tt).
Proof.
  intros Hbad. apply process_packet_unparsed.
  destruct (decide (length data < HEADER_SIZE)%nat) as [Hs|Hl].
  - by apply parse_header_short.
  - destruct Hbad as [|Hbad]; [done|].
    rewrite parse_header_long by lia. by rewrite decide_True.
Qed.

Lemma malformed_packet_is_ignored_witness :
  process_packet calm (started_receiver 0) ABC
    = mkStep (started_receiver 0) [] (Ok tt).
Proof.
  apply malformed_packet_is_ignored. left. vm_compute. lia.
Defined.

(** X10.  A well-formed datagram whose media type is neither 0 nor 1 is
    counted in [packets_received] and [bytes_received] and otherwise
    dropped: both reassemblers stay as they are and nothing is printed or
    forwarded. *)
Theorem unknown_media_type_is_only_counted (w : World)
    (self : NDIBridgeReceiver) (data : bytes) (h : Header) :
  parse_header data = Ok (Some h) →
  media_type h ≠ 0 → media_type h ≠ 1 →
  process_packet w self data = mkStep (count_packet self data) [] (Ok tt).
Proof.
  intros Hparse H0 H1. unfold process_packet. rewrite Hparse.
  by rewrite !decide_False by done.
Qed.

Lemma unknown_media_type_is_only_counted_witness :
  let data := take 5 truncated_datagram ++ [x07] ++ drop 6 truncated_datagram in
  packets_received (receiver (process_packet calm (started_receiver 0) data)) = 1 ∧
  video_reassembler (receiver (process_packet calm (started_receiver 0) data))
    = new_reassembler "video".
Proof.
  cbv zeta.
  rewrite (unknown_media_type_is_only_counted calm (started_receiver 0) _
             (wire_header (take 5 truncated_datagram ++ [x07]
                             ++ drop 6 truncated_datagram)));
    [by split|reflexivity|by vm_compute|by vm_compute].
Defined.

(** X11.  The two streams do not interfere.  [process_packet] changes the
    video reassembler only for a parsed header of media type 0 and the
    audio reassembler only for one of media type 1, also when it raises. *)
Theorem streams_are_independent (w : World) (self : NDIBridgeReceiver)
    (data : bytes) :
  let r := receiver (process_packet w self data) in
  (video_reassembler r ≠ video_reassembler self →
     ∃ h, parse_header data = Ok (Some h) ∧ media_type h = 0) ∧
  (audio_reassembler r ≠ audio_reassembler self →
     ∃ h, parse_header data = Ok (Some h) ∧ media_type h = 1).
Proof.
  cbv zeta. unfold process_packet.
  destruct (parse_header data) as [[h|]|e]; [|by split..].
  destruct (decide (media_type h = 0)) as [H0|H0].
  - split; [by exists h|]. intros Hne. exfalso. apply Hne.
    cbn. by repeat case_match.
  - destruct (decide (media_type h = 1)) as [H1|H1]; [|by split].
    split; [|by exists h]. intros Hne. exfalso. apply Hne.
    cbn. repeat case_match; try done.
    unfold send_ndi_audio. by repeat case_match.
Qed.

Lemma streams_are_independent_witness :
  ∃ h, parse_header truncated_datagram = Ok (Some h) ∧ media_type h = 0.
Proof.
  apply (proj1 (streams_are_independent calm
                  (set_video (started_receiver 0)
                     (after (add_fragment (new_reassembler "video")
                               (video_header 42 1 3) DEF)))
                  truncated_datagram)).
  by vm_compute.
Defined.

(** X12.  Every datagram with a valid header is accounted for, whatever
    happens to it afterwards (also when reassembly raises): the packet
    counter grows by one and the byte counter by the length of the whole
    datagram; [process_packet] never touches the video frame counter, and
    the audio frame counter grows by at most one. *)
Theorem packet_accounting (w : World) (self : NDIBridgeReceiver)
    (data : bytes) (h : Header) :
  parse_header data = Ok (Some h) →
  let r := receiver (process_packet w self data) in
  packets_received r = packets_received self + 1 ∧
  bytes_received r = bytes_received self + Z.of_nat (length data) ∧
  video_frames r = video_frames self ∧
  (audio_frames r = audio_frames self ∨ audio_frames r = audio_frames self + 1).
Proof.
  intros Hparse. cbv zeta. unfold process_packet. rewrite Hparse.
  repeat case_match; cbn; try (split_and!; [done|done|done|by left]).
  unfold send_ndi_audio. repeat case_match; cbn;
    split_and!; try done; by (left + right).
Qed.

Lemma packet_accounting_witness :
  bytes_received (receiver (process_packet calm (started_receiver 0)
                              stray_index_datagram)) = 38.
Proof.
  destruct (packet_accounting calm (started_receiver 0) stray_index_datagram
              (wire_header stray_index_datagram) eq_refl) as (_ & Hbytes & _).
  exact Hbytes.
Defined.

(** X13.  A failing decoder pipe is contained.  For a video datagram the
    receiver after [process_packet] and the outcome of the call do not
    depend on whether writing to the decoder raises, and the only
    exception the call can raise is the [KeyError] of the reassembler. *)
Theorem decoder_write_failure_is_contained (w1 w2 : World)
    (self : NDIBridgeReceiver) (data : bytes) (h : Header) :
  parse_header data = Ok (Some h) →
  media_type h = 0 →
  receiver (process_packet w1 self data) = receiver (process_packet w2 self data) ∧
  status (process_packet w1 self data) = status (process_packet w2 self data) ∧
  (status (process_packet w1 self data) = Ok tt ∨
   ∃ k, status (process_packet w1 self data) = Raise (KeyError k)).
Proof.
  intros Hparse Hv. unfold process_packet. rewrite Hparse.
  destruct (decide (media_type h = 0)) as [_|]; [|done]. cbv zeta.
  pose proof (raises_only_key_error
                (video_reassembler (count_packet self data)) h
                (payload_of data h)) as Hraise.
  destruct (returned (add_fragment (video_reassembler (count_packet self data)) h
                        (payload_of data h))) as [frame|e] eqn:Hret.
  - repeat case_match; cbn; split_and!; try done; by left.
  - cbn. split_and!; [done..|]. right. destruct (Hraise e eq_refl) as [k ->].
    by exists k.
Qed.

Lemma decoder_write_failure_is_contained_witness :
  status (process_packet (mkWorld (fun _ => true) (fun _ _ _ => true))
            (started_receiver 0) truncated_datagram)
    = status (process_packet calm (started_receiver 0) truncated_datagram).
Proof.
  destruct (decoder_write_failure_is_contained
              (mkWorld (fun _ => true) (fun _ _ _ => true)) calm
              (started_receiver 0) truncated_datagram
              (wire_header truncated_datagram) eq_refl eq_refl)
    as (_ & Hstatus & _).
  exact Hstatus.
Defined.

(** X14.  Bytes after the declared payload are ignored.  When a datagram
    is at least as long as its header plus the payload size it declares,
    appending further bytes changes neither the parsed header nor the
    payload handed to the reassembler, whose length is the declared
    payload size. *)
Theorem trailing_bytes_are_ignored (data extra : bytes) (h : Header) :
  parse_header data = Ok (Some h) →
  (HEADER_SIZE + Z.to_nat (payload_size h) ≤ length data)%nat →
  parse_header (data ++ extra) = Ok (Some h) ∧
  payload_of (data ++ extra) h = payload_of data h ∧
  length (payload_of data h) = Z.to_nat (payload_size h).
Proof.
  intros Hparse Hlen.
  pose proof (parse_header_some_length _ _ Hparse) as Hlong.
  unfold HEADER_SIZE in *. split_and!.
  - rewrite <-Hparse. apply header_prefix.
    + rewrite length_app. unfold HEADER_SIZE. lia.
    + done.
    + by rewrite take_app_le by lia.
  - unfold payload_of, slice, HEADER_SIZE.
    rewrite drop_app_le by lia. rewrite take_app_le; [done|].
    rewrite length_drop. lia.
  - unfold payload_of, slice, HEADER_SIZE. rewrite length_take, length_drop. lia.
Qed.

Lemma trailing_bytes_are_ignored_witness :
  payload_of (datagram x2a x00 x01 x03 ABC ++ DEF)
             (wire_header (datagram x2a x00 x01 x03 ABC)) = ABC.
Proof.
  destruct (trailing_bytes_are_ignored (datagram x2a x00 x01 x03 ABC) DEF
              (wire_header (datagram x2a x00 x01 x03 ABC)) eq_refl)
    as (_ & -> & _).
  - vm_compute. lia.
  - reflexivity.
Defined.

(** X15.  An audio frame cannot be sent with a channel count of zero.
    When a datagram of media type 1 completes a non-empty frame, its
    header carries [channels = 0] and the NDI sender exists,
    [send_ndi_audio] divides by zero and [process_packet] raises
    [ZeroDivisionError], with nothing handed to the sender. *)
Theorem audio_without_channels_raises (w : World) (self : NDIBridgeReceiver)
    (data : bytes) (h : Header) (frame : bytes) :
  parse_header data = Ok (Some h) →
  media_type h = 1 →
  channels h = 0 →
  ndi_send self = true →
  returned (add_fragment (audio_reassembler self) h (payload_of data h))
    = Ok (Some frame) →
  frame ≠ [] →
  let s := process_packet w self data in
  status s = Raise ZeroDivisionError ∧
  audio_frames (receiver s) = audio_frames self ∧
  events s = Print <$> printed (add_fragment (audio_reassembler self) h
                                  (payload_of data h)).
Proof.
  intros Hparse Ha Hch Hsend Hret Hne. cbv zeta.
  unfold process_packet. rewrite Hparse.
  rewrite decide_False by lia. rewrite decide_True by done.
  cbv zeta. cbn [audio_reassembler count_packet]. rewrite Hret.
  destruct frame as [|b frame]; [done|]. cbn [truthy].
  unfold send_ndi_audio. cbn [ndi_send set_audio count_packet].
  rewrite Hsend, Hch. cbn. by rewrite app_nil_r.
Qed.

Lemma audio_without_channels_raises_witness :
  let data := take 5 truncated_datagram ++ [x01] ++ drop 6 truncated_datagram in
  status (process_packet calm (started_receiver 0) data) = Raise ZeroDivisionError.
Proof.
  cbv zeta.
  apply (audio_without_channels_raises calm (started_receiver 0)
           (take 5 truncated_datagram ++ [x01] ++ drop 6 truncated_datagram)
           (wire_header (take 5 truncated_datagram ++ [x01]
                           ++ drop 6 truncated_datagram)) ABC);
    [reflexivity|reflexivity|reflexivity|reflexivity|reflexivity|discriminate].
Defined.

(** X16.  An empty frame is not forwarded.  When the call of the
    reassembler returns a frame of no bytes, [process_packet] neither
    writes to the decoder nor calls the sender: it only prints what the
    reassembler printed and returns normally, and no frame counter
    moves. *)
Theorem empty_frame_is_not_forwarded (w : World) (self : NDIBridgeReceiver)
    (data : bytes) (h : Header) :
  parse_header data = Ok (Some h) →
  (media_type h = 0 →
   returned (add_fragment (video_reassembler self) h (payload_of data h))
     = Ok (Some []) →
   process_packet w self data =
     mkStep (set_video (count_packet self data)
               (after (add_fragment (video_reassembler self) h (payload_of data h))))
            (Print <$> printed (add_fragment (video_reassembler self) h
                                  (payload_of data h)))
            (Ok tt)) ∧
  (media_type h = 1 →
   returned (add_fragment (audio_reassembler self) h (payload_of data h))
     = Ok (Some []) →
   process_packet w self data =
     mkStep (set_audio (count_packet self data)
               (after (add_fragment (audio_reassembler self) h (payload_of data h))))
            (Print <$> printed (add_fragment (audio_reassembler self) h
                                  (payload_of data h)))
            (Ok tt)).
Proof.
  intros Hparse. unfold process_packet. rewrite Hparse. split.
  - intros Hv Hret. rewrite decide_True by done.
    cbv zeta. cbn [video_reassembler count_packet]. by rewrite Hret.
  - intros Ha Hret. rewrite decide_False by lia. rewrite decide_True by done.
    cbv zeta. cbn [audio_reassembler count_packet]. by rewrite Hret.
Qed.

Lemma empty_frame_is_not_forwarded_witness :
  events (process_packet calm (started_receiver 0) (datagram x07 x00 x01 x00 []))
    = [] ∧
  returned (add_fragment (new_reassembler "video")
              (wire_header (datagram x07 x00 x01 x00 [])) []) = Ok (Some []).
Proof.
  destruct (empty_frame_is_not_forwarded calm (started_receiver 0)
              (datagram x07 x00 x01 x00 [])
              (wire_header (datagram x07 x00 x01 x00 [])) eq_refl) as [Hv _].
  rewrite Hv by reflexivity. split; reflexivity.
Defined.

(** * Further properties of the statistics and of the receive loop *)

(** X17.  [log_stats] touches the counters and the time stamp only: both
    reassemblers (and with them any frame in progress), the sender and
    the decoder handle are kept.  A report is not repeated: a second call
    with no packet in between prints nothing, whatever the clock reads. *)
Theorem log_stats_keeps_the_rest (t1 t2 : Q) (self : NDIBridgeReceiver) :
  let s1 := (log_stats t1 self).1 in
  video_reassembler s1 = video_reassembler self ∧
  audio_reassembler s1 = audio_reassembler self ∧
  running s1 = running self ∧ ndi_send s1 = ndi_send self ∧
  ffmpeg_process s1 = ffmpeg_process self ∧
  last_stats_time s1 = t1 ∧
  (log_stats t2 s1).2 = [] ∧
  (log_stats t2 s1).1 = (log_stats t2 self).1.
Proof.
  cbv zeta. split_and!; try reflexivity.
  unfold log_stats. cbn. by destruct (Qlt_le_dec _ _).
Qed.

Lemma parse_header_never_raises (data : bytes) :
  ∀ e, parse_header data ≠ Raise e.
Proof.
  intros e. destruct (decide (length data < HEADER_SIZE)%nat).
  - by rewrite parse_header_short.
  - rewrite parse_header_long by lia. by case_decide.
Qed.

Lemma process_packet_raise (w : World) (self : NDIBridgeReceiver) (data : bytes)
    (e : exn) :
  status (process_packet w self data) = Raise e →
  ∃ h, parse_header data = Ok (Some h) ∧
       ((media_type h = 0 ∧ ∃ k, e = KeyError k) ∨
        (media_type h = 1 ∧
         ((∃ k, e = KeyError k) ∨
          (e = ZeroDivisionError ∧ channels h = 0 ∧ ndi_send self = true) ∨
          (e = ExternalError ∧ ndi_send self = true)))).
Proof.
  unfold process_packet.
  pose proof (parse_header_never_raises data) as Hnoraise.
  destruct (parse_header data) as [[h|]|e'] eqn:Hparse;
    [|done|by destruct (Hnoraise e')].
  cbv zeta. intros Hst. exists h. split; [done|].
  destruct (decide (media_type h = 0)) as [H0|H0].
  - left. split; [done|].
    destruct (returned (add_fragment _ h _)) as [frame|e''] eqn:Hret.
    + by repeat case_match.
    + cbn in Hst. injection Hst as ->. by eapply raises_only_key_error.
  - destruct (decide (media_type h = 1)) as [H1|H1]; [|done].
    right. split; [done|].
    destruct (returned (add_fragment _ h _)) as [frame|e''] eqn:Hret.
    + destruct (truthy frame) as [d|]; [|done]. cbn in Hst.
      unfold send_ndi_audio in Hst. cbn in Hst.
      destruct (ndi_send self) eqn:Hsend; cbn in Hst; [|done].
      destruct (decide (4 * channels h = 0)) as [Hch|Hch]; cbn in Hst.
      * injection Hst as <-. right. left. split_and!; [done|lia|done].
      * destruct (ndi_audio_raises w d (sample_rate h) (channels h));
          cbn in Hst; [|done].
        injection Hst as <-. right. by right.
    + cbn in Hst. injection Hst as ->. left. by eapply raises_only_key_error.
Qed.

(** X18.  What can stop [process_packet].  It raises only for a datagram
    with a valid header of media type 0 or 1; for video the exception is
    the [KeyError] of the reassembler, for audio it is that [KeyError], the
    [ZeroDivisionError] of a header with zero channels, or an error of the
    sender library.  It never fails in the parser. *)
Theorem process_packet_raises_only (w : World) (self : NDIBridgeReceiver)
    (data : bytes) (e : exn) :
  status (process_packet w self data) = Raise e →
  ∃ h, parse_header data = Ok (Some h) ∧
       ((media_type h = 0 ∧ ∃ k, e = KeyError k) ∨
        (media_type h = 1 ∧
         ((∃ k, e = KeyError k) ∨
          (e = ZeroDivisionError ∧ channels h = 0 ∧ ndi_send self = true) ∨
          (e = ExternalError ∧ ndi_send self = true)))).
Proof. apply process_packet_raise. Qed.

Lemma process_packet_raises_only_witness :
  ∃ h, parse_header stray_index_datagram = Ok (Some h) ∧
       ((media_type h = 0 ∧ ∃ k, KeyError 0 = KeyError k) ∨
        (media_type h = 1 ∧
         ((∃ k, KeyError 0 = KeyError k) ∨
          (KeyError 0 = ZeroDivisionError ∧ channels h = 0 ∧
           ndi_send (started_receiver 0) = true) ∨
          (KeyError 0 = ExternalError ∧ ndi_send (started_receiver 0) = true)))).
Proof.
  apply (process_packet_raises_only calm (started_receiver 0)
           stray_index_datagram (KeyError 0)).
  reflexivity.
Defined.



(** X20.  The interrupt of the user ends the loop at once: whatever follows
    it in the input is never received, and the loop is no longer
    waiting. *)
Theorem receive_loop_stops_at_interrupt (w : World) (self : NDIBridgeReceiver)
    (last : Q) (pre post : list iteration) (it : iteration) :
  arrived it = KeyboardInterrupt →
  receive_loop w self last (pre ++ it :: post)
    = receive_loop w self last (pre ++ [it]) ∧
  (receive_loop w self last (pre ++ it :: post)).2 ≠ Waiting.
Proof.
  intros Hint. revert self last.
  induction pre as [|it' pre IH]; intros self last.
  - cbn. by rewrite Hint.
  - cbn [app receive_loop]. destruct (arrived it') as [data| |]; [| |done].
    + destruct (status (process_packet w self data)); [|done].
      destruct (stats_tick _ _ _) as [[self' last'] out].
      destruct (IH self' last') as [-> Hne].
      by destruct (receive_loop w self' last' (pre ++ [it])) as [[? ?] ?].
    + destruct (stats_tick _ _ _) as [[self' last'] out].
      destruct (IH self' last') as [-> Hne].
      by destruct (receive_loop w self' last' (pre ++ [it])) as [[? ?] ?].
Qed.

Lemma receive_loop_stops_at_interrupt_witness :
  (receive_loop calm (started_receiver 0) 0
     ([mkIteration Timeout 0 0 0] ++ mkIteration KeyboardInterrupt 0 0 0
        :: [mkIteration (Datagram stray_index_datagram) 0 0 0])).2 = ShutDown.
Proof.
  destruct (receive_loop_stops_at_interrupt calm (started_receiver 0) 0
              [mkIteration Timeout 0 0 0]
              [mkIteration (Datagram stray_index_datagram) 0 0 0]
              (mkIteration KeyboardInterrupt 0 0 0) eq_refl) as [-> _].
  reflexivity.
Defined.

(** * The decoder thread *)

Lemma send_ndi_video_cases (video_raises : bytes → bool) (width height : Z)
    (self : NDIBridgeReceiver) (data : bytes) :
  let '(self1, out, st) := send_ndi_video video_raises width height self data in
  (self1 = self ∧ out = []) ∨
  (ndi_send self = true ∧ height ≠ 0 ∧ video_raises data = false ∧
   st = Ok tt ∧ self1 = count_video_frame self ∧
   out = [NdiSendVideo (mkVideoFrame width height FOURCC_VIDEO_TYPE_UYVY
                          30000 1000
                          (Qdiv (inject_Z width) (inject_Z height))
                          (width * 2) data)]).
Proof.
  unfold send_ndi_video. destruct (ndi_send self); cbn; [|by left].
  destruct (decide (height = 0)); [by left|].
  destruct (video_raises data); [by left|]. right. by split_and!.
Qed.

(** X21.  The decoder thread sends only whole frames.  Whatever it reads
    and whenever it stops, every frame handed to the sender has the
    configured width and height, a stride of two bytes per pixel and
    exactly stride times height bytes of data, at 30000/1000 frames per
    second; and the video frame counter grows by the number of frames
    sent. *)
Theorem decoder_sends_only_whole_frames (video_raises : bytes → bool)
    (width height : Z) (self : NDIBridgeReceiver) (turns : list decoder_turn) :
  let r := decoder_loop video_raises width height self turns in
  Forall (fun f => xres f = width ∧ yres f = height ∧ height ≠ 0 ∧
                   line_stride_in_bytes f = width * 2 ∧
                   Z.of_nat (length (frame_bytes f))
                     = line_stride_in_bytes f * yres f ∧
                   frame_rate_N f = 30000 ∧ frame_rate_D f = 1000)
         (sent_frames r.1.2) ∧
  video_frames r.1.1 = video_frames self + Z.of_nat (length (sent_frames r.1.2)).
Proof.
  cbv zeta. revert self. induction turns as [|t turns IH]; intros self.
  - cbn. split; [constructor|lia].
  - cbn [decoder_loop]. cbv zeta.
    destruct (running_seen t && ffmpeg_process self); [|cbn; split; [constructor|lia]].
    destruct (read_result t) as [data|e]; [|cbn; split; [constructor|lia]].
    destruct (decide (Z.of_nat (length data) = width * height * 2)) as [Hfull|];
      [|apply IH].
    pose proof (send_ndi_video_cases video_raises width height self data) as Hsend.
    destruct (send_ndi_video video_raises width height self data)
      as [[self1 out] st].
    destruct Hsend as [[-> ->]|(_ & Hh & _ & -> & -> & ->)].
    + destruct st as [[]|e].
      * specialize (IH self).
        destruct (decoder_loop video_raises width height self turns)
          as [[final out'] ended]. exact IH.
      * cbn. split; [constructor|lia].
    + specialize (IH (count_video_frame self)).
      destruct (decoder_loop video_raises width height (count_video_frame self) turns)
        as [[final out'] ended].
      cbn in IH |- *. destruct IH as [IH1 IH2]. split.
      * constructor; [|done]. cbn. split_and!; try done. lia.
      * rewrite IH2. lia.
Qed.

(** X22.  Short reads are skipped, not fatal.  While the flag is set, the
    handles exist, the height is not zero and nothing raises, the decoder
    thread forwards exactly the reads of [width * height * 2] bytes, in
    order; a shorter read (an empty one at the end of the stream
    included) is dropped and the loop goes on. *)
Theorem decoder_skips_short_reads (video_raises : bytes → bool)
    (width height : Z) (self : NDIBridgeReceiver) (reads : list bytes) :
  ndi_send self = true → ffmpeg_process self = true → height ≠ 0 →
  (∀ d, video_raises d = false) →
  let r := decoder_loop video_raises width height self
             ((fun d => mkTurn true (Ok d)) <$> reads) in
  frame_bytes <$> sent_frames r.1.2
    = filter (fun d => Z.of_nat (length d) = width * height * 2) reads ∧
  r.2 = false.
Proof.
  intros Hsend Hproc Hh Hok. cbv zeta. revert self Hsend Hproc.
  induction reads as [|d reads IH]; intros self Hsend Hproc; [done|].
  rewrite fmap_cons. cbn [decoder_loop running_seen read_result]. cbv zeta.
  rewrite Hproc. cbn [andb]. rewrite filter_cons.
  destruct (decide (Z.of_nat (length d) = width * height * 2)) as [Hfull|Hshort].
  - unfold send_ndi_video. rewrite Hsend, Hok. cbn [negb].
    rewrite decide_False by done.
    specialize (IH (count_video_frame self) Hsend Hproc).
    destruct (decoder_loop video_raises width height (count_video_frame self) _)
      as [[final out'] ended].
    cbn in IH |- *. destruct IH as [-> ->]. done.
  - by apply IH.
Qed.

Lemma decoder_skips_short_reads_witness :
  frame_bytes <$> sent_frames
    (decoder_loop (fun _ => false) 3 1 (started_receiver 0)
       ((fun d => mkTurn true (Ok d)) <$> [ABC ++ DEF; ABC; []; DEF ++ ABC])).1.2
    = [ABC ++ DEF; DEF ++ ABC].
Proof.
  destruct (decoder_skips_short_reads (fun _ => false) 3 1 (started_receiver 0)
              [ABC ++ DEF; ABC; []; DEF ++ ABC]) as [-> _];
    [reflexivity|reflexivity|lia|reflexivity|reflexivity].
Defined.

(** * The three receivers side by side *)

Lemma inline_reassemble_as_add_fragment (self : FrameReassembler) (h : Header)
    (p : bytes) :
  inline_reassemble (fragments self) (current_sequence self)
    (sequence_number h) (fragment_index h) (fragment_count h) p =
  (fragments (after (add_fragment self h p)),
   current_sequence (after (add_fragment self h p)),
   returned (add_fragment self h p)).
Proof.
  rewrite add_fragment_after, add_fragment_returned.
  unfold inline_reassemble, begin_sequence, store_fragment.
  destruct (decide (current_sequence self ≠ Some (sequence_number h))); cbn;
    destruct (decide (Z.of_nat (size _) = fragment_count h)); cbn; try done;
    by destruct (join_fragments _ _).
Qed.

(** X23.  The reassembly block written out in [receiver_av.py] and
    [receiver_minimal.py] computes what [FrameReassembler.add_fragment]
    computes: started from the same dictionary and current sequence, it
    leaves the same dictionary and current sequence and yields the same
    frame, [None] or [KeyError].  (The class also records a count and
    prints a line when it abandons a sequence; the block does neither.) *)
Theorem inline_reassembly_is_add_fragment (self : FrameReassembler) (h : Header)
    (p : bytes) :
  inline_reassemble (fragments self) (current_sequence self)
    (sequence_number h) (fragment_index h) (fragment_count h) p =
  (fragments (after (add_fragment self h p)),
   current_sequence (after (add_fragment self h p)),
   returned (add_fragment self h p)).
Proof. apply inline_reassemble_as_add_fragment. Qed.

Lemma process_packet_video_reassembler (w : World) (self : NDIBridgeReceiver)
    (data : bytes) :
  video_reassembler (receiver (process_packet w self data)) =
    match parse_header data with
    | Ok (Some h) =>
        if decide (media_type h = 0)
        then after (add_fragment (video_reassembler self) h (payload_of data h))
        else video_reassembler self
    | _ => video_reassembler self
    end.
Proof.
  unfold process_packet. destruct (parse_header data) as [[h|]|e]; [|done..].
  destruct (decide (media_type h = 0)); cbn; [by repeat case_match|].
  repeat case_match; try done. unfold send_ndi_audio. by repeat case_match.
Qed.

Lemma process_packet_audio_reassembler (w : World) (self : NDIBridgeReceiver)
    (data : bytes) :
  audio_reassembler (receiver (process_packet w self data)) =
    match parse_header data with
    | Ok (Some h) =>
        if decide (media_type h = 1)
        then after (add_fragment (audio_reassembler self) h (payload_of data h))
        else audio_reassembler self
    | _ => audio_reassembler self
    end.
Proof.
  unfold process_packet. destruct (parse_header data) as [[h|]|e]; [|done..].
  destruct (decide (media_type h = 0)) as [H0|H0]; cbn.
  - rewrite decide_False by lia. by repeat case_match.
  - destruct (decide (media_type h = 1)); [|done]. cbn.
    repeat case_match; try done. unfold send_ndi_audio. by repeat case_match.
Qed.

Lemma av_locals (w : AV.World) (self : AV.Receiver) (loc : AV.Locals)
    (data : bytes) :
  AV.locals (AV.receive_datagram w self loc data) =
    match parse_header data with
    | Ok (Some h) =>
        if decide (media_type h = 0) then
          let r := inline_reassemble (AV.video_frags loc) (AV.video_seq loc)
                     (sequence_number h) (fragment_index h) (fragment_count h)
                     (payload_of data h) in
          AV.mkLocals r.1.1 r.1.2 (AV.audio_frags loc) (AV.audio_seq loc)
        else if decide (media_type h = 1) then
          let r := inline_reassemble (AV.audio_frags loc) (AV.audio_seq loc)
                     (sequence_number h) (fragment_index h) (fragment_count h)
                     (payload_of data h) in
          AV.mkLocals (AV.video_frags loc) (AV.video_seq loc) r.1.1 r.1.2
        else loc
    | _ => loc
    end.
Proof.
  unfold AV.receive_datagram.
  destruct (decide (length data < HEADER_SIZE)%nat) as [Hs|Hl].
  { by rewrite parse_header_short. }
  rewrite parse_header_long by lia. unfold HEADER_SIZE in Hl.
  rewrite (unpack_slice data 0 4 4) by (done || lia).
  destruct (decide (wire_field data 0 4 ≠ MAGIC)) as [|_]; [done|].
  rewrite !index_wire by lia. cbn [res_bind].
  rewrite (unpack_slice data 8 12 4), (unpack_slice data 24 26 2),
    (unpack_slice data 26 28 2), (unpack_slice data 28 30 2) by (done || lia).
  cbn [res_bind]. cbv zeta.
  cbn [media_type sequence_number fragment_index fragment_count wire_header].
  unfold payload_of. cbn [payload_size wire_header].
  destruct (decide (wire_field data 5 1 = 0)) as [_|_].
  - destruct (inline_reassemble _ _ _ _ _ _) as [[frags cur] r]. cbn.
    destruct r as [[frame|]|ex]; [|done..]. by destruct (AV.stdin_write_raises w frame).
  - destruct (decide (wire_field data 5 1 = 1)) as [_|_]; [|done].
    destruct (inline_reassemble _ _ _ _ _ _) as [[frags cur] r]. cbn.
    destruct r as [[frame|]|ex]; [|done..]. by destruct (AV.send_audio _ _ _ _).
Qed.

(** X24.  [receiver_av.py] reassembles like [receiver.py].  If the
    dictionaries and current sequences of the two reassemblers of
    [receiver.py] equal the four local variables of [Receiver.run] before
    a datagram, they are equal after it, whatever the datagram is and
    whatever either receiver does with a completed frame (also when one
    of them raises). *)
Theorem av_reassembles_like_receiver (w : World) (w' : AV.World)
    (self : NDIBridgeReceiver) (self' : AV.Receiver) (loc : AV.Locals)
    (data : bytes) :
  same_video self (AV.video_frags loc) (AV.video_seq loc) →
  same_audio self (AV.audio_frags loc) (AV.audio_seq loc) →
  let s := process_packet w self data in
  let s' := AV.receive_datagram w' self' loc data in
  same_video (receiver s) (AV.video_frags (AV.locals s'))
    (AV.video_seq (AV.locals s')) ∧
  same_audio (receiver s) (AV.audio_frags (AV.locals s'))
    (AV.audio_seq (AV.locals s')).
Proof.
  intros [Hvf Hvs] [Haf Has]. cbv zeta. unfold same_video, same_audio.
  rewrite process_packet_video_reassembler, process_packet_audio_reassembler,
    av_locals.
  destruct (parse_header data) as [[h|]|e]; [|done..].
  destruct (decide (media_type h = 0)) as [H0|H0].
  - rewrite decide_False by lia. cbv zeta.
    rewrite <-Hvf, <-Hvs, inline_reassemble_as_add_fragment. by cbn.
  - destruct (decide (media_type h = 1)) as [H1|H1]; [|done]. cbv zeta.
    rewrite <-Haf, <-Has, inline_reassemble_as_add_fragment. by cbn.
Qed.

Lemma av_reassembles_like_receiver_witness :
  AV.video_frags (AV.locals
    (AV.receive_datagram (AV.mkWorld (fun _ => false) (fun _ _ => false))
       AV.new_receiver AV.new_locals (datagram x2a x01 x02 x03 DEF)))
    = {[1 := DEF]}.
Proof.
  destruct (av_reassembles_like_receiver calm
              (AV.mkWorld (fun _ => false) (fun _ _ => false))
              (started_receiver 0) AV.new_receiver AV.new_locals
              (datagram x2a x01 x02 x03 DEF)) as [[<- _] _];
    [by split|by split|reflexivity].
Defined.

(** The parsing steps written out in the loops of the two other receivers,
    on a datagram of at least 38 bytes: each reads a field of the wire
    table. *)
Ltac read_wire_fields data Hlong :=
  unfold HEADER_SIZE in Hlong;
  rewrite ?(unpack_slice data 0 4 4) by (done || lia);
  rewrite ?index_wire by lia; cbn [res_bind];
  rewrite ?(unpack_slice data 8 12 4), ?(unpack_slice data 24 26 2),
    ?(unpack_slice data 26 28 2), ?(unpack_slice data 28 30 2) by (done || lia);
  cbn [res_bind].

(** X25.  Audio is switched off in [receiver_av.py].  With [self.af] left
    at [None], as the constructor leaves it, no datagram makes the
    receiver write audio or even attempt it: the only events are writes to
    the decoder and the line about the first frame, the audio frame
    counter does not move, and [self.af] stays [None]. *)
Theorem av_audio_is_switched_off (w : AV.World) (self : AV.Receiver)
    (loc : AV.Locals) (data : bytes) :
  AV.af self = false →
  let s := AV.receive_datagram w self loc data in
  AV.af (AV.receiver s) = false ∧
  AV.audio_frames (AV.receiver s) = AV.audio_frames self ∧
  Forall (fun ev => match ev with
                    | AV.FfmpegWrite _ | AV.PrintFirstFrame _ => True
                    | AV.WriteAudio _ _ | AV.PrintAudioError => False
                    end) (AV.events s).
Proof.
  intros Haf. cbv zeta. unfold AV.receive_datagram.
  destruct (decide (length data < HEADER_SIZE)%nat) as [Hs|Hl]; [by cbn|].
  read_wire_fields data Hl.
  destruct (decide (wire_field data 0 4 ≠ MAGIC)) as [|_]; [by cbn|].
  read_wire_fields data Hl. cbv zeta.
  destruct (decide (wire_field data 5 1 = 0)) as [_|_].
  - destruct (inline_reassemble _ _ _ _ _ _) as [[frags cur] r].
    destruct r as [[frame|]|ex]; [|by cbn..].
    destruct (AV.stdin_write_raises w frame); [by cbn|]. cbn.
    split_and!; [done..|]. case_decide; repeat constructor.
  - destruct (decide (wire_field data 5 1 = 1)) as [_|_]; [|by cbn].
    destruct (inline_reassemble _ _ _ _ _ _) as [[frags cur] r].
    destruct r as [[frame|]|ex]; [|by cbn..].
    unfold AV.send_audio. cbn. rewrite Haf. by cbn.
Qed.

Lemma av_audio_is_switched_off_witness :
  let data := take 5 truncated_datagram ++ [x01] ++ drop 6 truncated_datagram in
  AV.audio_frames (AV.receiver
    (AV.receive_datagram (AV.mkWorld (fun _ => false) (fun _ _ => false))
       AV.new_receiver AV.new_locals data)) = 0.
Proof.
  cbv zeta.
  destruct (av_audio_is_switched_off
              (AV.mkWorld (fun _ => false) (fun _ _ => false))
              AV.new_receiver AV.new_locals
              (take 5 truncated_datagram ++ [x01] ++ drop 6 truncated_datagram)
              eq_refl) as (_ & Hcount & _).
  exact Hcount.
Defined.

Lemma inline_reassemble_complete (frags : gmap Z bytes) (cur : option Z)
    (seq idx n : Z) (p frame : bytes) :
  (inline_reassemble frags cur seq idx n p).2 = Ok (Some frame) →
  (inline_reassemble frags cur seq idx n p).1 = (∅, None).
Proof.
  unfold inline_reassemble.
  destruct (decide (cur ≠ Some seq)); cbn;
    destruct (decide (Z.of_nat (size _) = n)); cbn; try done;
    by destruct (join_fragments _ _).
Qed.

Lemma inline_reassemble_raise (frags : gmap Z bytes) (cur : option Z)
    (seq idx n : Z) (p : bytes) (e : exn) :
  (inline_reassemble frags cur seq idx n p).2 = Raise e → ∃ k, e = KeyError k.
Proof.
  unfold inline_reassemble.
  destruct (decide (cur ≠ Some seq)); cbn;
    destruct (decide (Z.of_nat (size _) = n)); cbn; try done;
    (destruct (join_fragments _ _) as [d|e'] eqn:Hj; cbn; [done|]);
    intros [= <-]; destruct (join_fragments_raise _ _ _ Hj) as (k & -> & _);
    by exists k.
Qed.

(** X26.  In [receiver_av.py] a failing decoder pipe is not contained.
    The only exceptions one datagram can raise are the [KeyError] of the
    reassembly and the error of the write to the decoder; when a video
    datagram completes a frame and the write raises, the exception leaves
    the iteration, the frame is gone from the dictionary, and the frame
    counter has not moved. *)
Theorem av_write_failure_escapes (w : AV.World) (self : AV.Receiver)
    (loc : AV.Locals) (data : bytes) :
  let s := AV.receive_datagram w self loc data in
  (∀ e, AV.status s = Raise e → (∃ k, e = KeyError k) ∨ e = ExternalError) ∧
  (∀ h frame,
     parse_header data = Ok (Some h) → media_type h = 0 →
     (inline_reassemble (AV.video_frags loc) (AV.video_seq loc)
        (sequence_number h) (fragment_index h) (fragment_count h)
        (payload_of data h)).2 = Ok (Some frame) →
     AV.stdin_write_raises w frame = true →
     AV.status s = Raise ExternalError ∧
     AV.events s = [] ∧
     AV.h264_frames (AV.receiver s) = AV.h264_frames self ∧
     AV.video_frags (AV.locals s) = ∅ ∧ AV.video_seq (AV.locals s) = None).
Proof.
  cbv zeta. split.
  - intros e. unfold AV.receive_datagram.
    destruct (decide (length data < HEADER_SIZE)%nat) as [Hs|Hl]; [done|].
    read_wire_fields data Hl.
    destruct (decide (wire_field data 0 4 ≠ MAGIC)) as [|_]; [done|].
    read_wire_fields data Hl. cbv zeta.
    destruct (decide (wire_field data 5 1 = 0)) as [_|_].
    + pose proof (inline_reassemble_raise (AV.video_frags loc) (AV.video_seq loc)
                    (wire_field data 8 4) (wire_field data 24 2)
                    (wire_field data 26 2)
                    (slice data 38 (38 + Z.to_nat (wire_field data 28 2)))) as Hk.
      destruct (inline_reassemble _ _ _ _ _ _) as [[frags cur] r].
      destruct r as [[frame|]|ex]; [|done|].
      * destruct (AV.stdin_write_raises w frame); [|done].
        intros [= <-]. by right.
      * intros [= <-]. left. by apply Hk.
    + destruct (decide (wire_field data 5 1 = 1)) as [_|_]; [|done].
      pose proof (inline_reassemble_raise (AV.audio_frags loc) (AV.audio_seq loc)
                    (wire_field data 8 4) (wire_field data 24 2)
                    (wire_field data 26 2)
                    (slice data 38 (38 + Z.to_nat (wire_field data 28 2)))) as Hk.
      destruct (inline_reassemble _ _ _ _ _ _) as [[frags cur] r].
      destruct r as [[frame|]|ex]; [by destruct (AV.send_audio _ _ _ _)|done|].
      intros [= <-]. left. by apply Hk.
  - intros h frame Hparse H0 Hinl Hw.
    pose proof (inline_reassemble_complete _ _ _ _ _ _ _ Hinl) as Hreset.
    pose proof (parse_header_some_length _ _ Hparse) as Hl.
    rewrite parse_header_long in Hparse by done.
    destruct (decide (wire_field data 0 4 ≠ MAGIC)) as [|Hmagic]; [done|].
    injection Hparse as <-.
    cbn [media_type sequence_number fragment_index fragment_count wire_header]
      in H0, Hinl, Hreset.
    unfold payload_of in Hinl, Hreset.
    cbn [payload_size wire_header] in Hinl, Hreset.
    unfold AV.receive_datagram. rewrite decide_False by lia.
    read_wire_fields data Hl. rewrite (decide_False (P := _ ≠ MAGIC)) by done.
    read_wire_fields data Hl. cbv zeta. rewrite decide_True by done.
    unfold HEADER_SIZE in Hinl, Hreset.
    destruct (inline_reassemble _ _ _ _ _ _) as [[frags cur] r].
    cbn in Hinl, Hreset. injection Hreset as -> ->. subst r.
    by rewrite Hw.
Qed.

Lemma av_write_failure_escapes_witness :
  AV.status (AV.receive_datagram (AV.mkWorld (fun _ => true) (fun _ _ => false))
               AV.new_receiver AV.new_locals truncated_datagram)
    = Raise ExternalError.
Proof.
  destruct (av_write_failure_escapes
              (AV.mkWorld (fun _ => true) (fun _ _ => false))
              AV.new_receiver AV.new_locals truncated_datagram) as [_ H].
  destruct (H (wire_header truncated_datagram) ABC) as (Hst & _);
    [reflexivity|reflexivity|reflexivity|reflexivity|exact Hst].
Defined.

(** X27.  [receiver_minimal.py] follows the video stream of [receiver.py].
    If the dictionary and the current sequence of the video reassembler
    equal the local variables of [MinimalReceiver.run] before a datagram,
    they are equal after it.  Its packet counter counts the valid video
    datagrams only: a malformed datagram or one of another media type
    leaves all its local variables as they are. *)
Theorem minimal_follows_video_stream (w : World) (write_raises : bytes → bool)
    (self : NDIBridgeReceiver) (loc : Minimal.Locals) (data : bytes) :
  same_video self (Minimal.fragments loc) (Minimal.current_seq loc) →
  let s := process_packet w self data in
  let s' := Minimal.receive_datagram write_raises loc data in
  same_video (receiver s) (Minimal.fragments (Minimal.locals s'))
    (Minimal.current_seq (Minimal.locals s')) ∧
  match parse_header data with
  | Ok (Some h) =>
      if decide (media_type h = 0)
      then Minimal.packets (Minimal.locals s') = Minimal.packets loc + 1
      else Minimal.locals s' = loc
  | _ => Minimal.locals s' = loc
  end.
Proof.
  intros [Hf Hc]. cbv zeta. unfold same_video.
  rewrite process_packet_video_reassembler. unfold Minimal.receive_datagram.
  destruct (decide (length data < HEADER_SIZE)%nat) as [Hs|Hl].
  { by rewrite parse_header_short. }
  rewrite parse_header_long by lia. read_wire_fields data Hl.
  destruct (decide (wire_field data 0 4 ≠ MAGIC)) as [|_]; [done|].
  read_wire_fields data Hl.
  cbn [media_type wire_header].
  destruct (decide (wire_field data 5 1 ≠ 0)) as [Hne|Heq].
  { by destruct (decide (wire_field data 5 1 = 0)). }
  destruct (decide (wire_field data 5 1 = 0)) as [_|]; [|lia].
  read_wire_fields data Hl. cbv zeta.
  pose proof (inline_reassemble_as_add_fragment (video_reassembler self)
                (wire_header data) (payload_of data (wire_header data))) as Hinl.
  rewrite Hf, Hc in Hinl.
  cbn [sequence_number fragment_index fragment_count wire_header] in Hinl.
  unfold payload_of at 1 in Hinl. cbn [payload_size wire_header] in Hinl.
  unfold HEADER_SIZE in Hinl |- *. rewrite Hinl.
  destruct (returned (add_fragment _ _ _)) as [[frame|]|ex]; [|done..].
  by destruct (write_raises frame).
Qed.

Lemma minimal_follows_video_stream_witness :
  Minimal.fragments (Minimal.locals
    (Minimal.receive_datagram (fun _ => false) Minimal.new_locals
       (datagram x2a x01 x02 x03 DEF))) = {[1 := DEF]}.
Proof.
  destruct (minimal_follows_video_stream calm (fun _ => false)
              (started_receiver 0) Minimal.new_locals
              (datagram x2a x01 x02 x03 DEF)) as [[<- _] _];
    [by split|reflexivity].
Defined.
